(** * Collaborative canvas: action log, room registry and socket gateway

    A shallow embedding of the server of the collaborative canvas
    ([server/src/HistoryStore.ts], [server/src/RoomManager.ts],
    [server/src/index.ts]) and of the replay loop of its client
    ([client/src/main.ts]), with the properties of the ordered action log,
    the room registry and the event fan-out.

    Conventions of the embedding.
    - A JavaScript array is a [list] whose head is index 0: [push] appends
      at the end and [pop] removes the last element.
    - A [Map] whose iteration order is observed ([room.users]) is an
      association list in insertion order; the other maps are [gmap]s.
    - [User] objects are shared between [room.users] and [socketToUser]:
      they live in a heap and the maps hold references.
    - [randomUUID()], [Date.now()] and [Math.random()] are inputs of the
      functions that call them.
    - Strings are sequences of characters; socket and room ids are ASCII,
      so a character is a UTF-16 code unit.
    - A thrown [Error] is the [inl] of a sum; a handler's [try]/[catch] is
      a [match] on it. *)

From Stdlib Require Import ZArith Lia Permutation Sorted Ascii.
From stdpp Require Import base numbers option list strings gmap.

Local Open Scope Z_scope.

(** ** Shared types ([types.ts]) *)

Record Point := mkPoint { px : Z; py : Z }.

(** The server never inspects [width] or the coordinates; they are carried
    as integers. [timestamp] is the optional field [timestamp?: number]. *)
Record Stroke := mkStroke {
  stroke_id : string;
  stroke_userId : string;
  stroke_color : string;
  stroke_width : Z;
  stroke_points : list Point;
  stroke_isFinished : bool;
  stroke_timestamp : option Z
}.

Inductive DrawingActionType := STROKE_DRAW | STROKE_ERASE | CLEAR_ALL.

Record DrawingAction := mkAction {
  action_id : string;
  action_type : DrawingActionType;
  action_userId : string;
  action_timestamp : Z;
  action_data : Stroke
}.

Record User := mkUser {
  user_id : string;
  user_color : string;
  user_name : string
}.

Record CursorPosition := mkCursor {
  cursor_userId : string;
  cursor_x : Z;
  cursor_y : Z;
  cursor_color : string;
  cursor_name : string
}.

#[global] Instance Point_eq_dec : EqDecision Point.
Proof. solve_decision. Defined.
#[global] Instance Stroke_eq_dec : EqDecision Stroke.
Proof. solve_decision. Defined.
#[global] Instance DrawingActionType_eq_dec : EqDecision DrawingActionType.
Proof. solve_decision. Defined.
#[global] Instance DrawingAction_eq_dec : EqDecision DrawingAction.
Proof. solve_decision. Defined.
#[global] Instance User_eq_dec : EqDecision User.
Proof. solve_decision. Defined.

(** ** JavaScript arrays *)

Module JsArray.

Section Pop.
Context {A : Type}.

(** [Array.prototype.pop]: the last element and the shortened array, or
    [None] (JavaScript's [undefined]) on the empty array. *)
Definition pop (l : list A) : option (A * list A) :=
  match last l with
  | None => None
  | Some x => Some (x, removelast l)
  end.

(** [Array.prototype.push]. *)
Definition push (l : list A) (x : A) : list A := l ++ [x].
End Pop.

Section StableSort.
Context {A : Type} (key : A → Z).

(** [Array.prototype.sort] with the comparator [(a, b) => key a - key b].
    The sort is stable (ECMAScript 2019), so its result is the one of
    insertion from the right: an element goes in front of the first
    element whose key is not smaller. *)
Fixpoint insert (x : A) (l : list A) : list A :=
  match l with
  | [] => [x]
  | y :: l' => if decide (key x ≤ key y) then x :: y :: l'
               else y :: insert x l'
  end.

Fixpoint sort (l : list A) : list A :=
  match l with
  | [] => []
  | x :: l' => insert x (sort l')
  end.

(** The order the comparator stands for. *)
Definition le_key (a b : A) : Prop := key a ≤ key b.
End StableSort.

End JsArray.

(** [a] occurs at a position of [l] strictly before one of [b]. *)
Definition Before {A : Type} (a b : A) (l : list A) : Prop :=
  ∃ r1 r2 r3, l = r1 ++ a :: r2 ++ b :: r3.

(** ** The action log ([HistoryStore.ts]) *)

Module HistoryStore.

Record t := mk {
  history : list DrawingAction;
  redoStack : list DrawingAction
}.

(** [new HistoryStore()] *)
Definition new : t := {| history := []; redoStack := [] |}.

Definition addStroke (uuid : string) (now : Z) (stroke : Stroke) (hs : t)
  : DrawingAction * t :=
  let action := {| action_id := uuid;
                   action_type := STROKE_DRAW;
                   action_userId := stroke_userId stroke;
                   action_timestamp := now;
                   action_data := stroke |} in
  (action, {| history := JsArray.push (history hs) action; redoStack := [] |}).

Definition addErase (uuid : string) (now : Z) (stroke : Stroke) (hs : t)
  : DrawingAction * t :=
  let action := {| action_id := uuid;
                   action_type := STROKE_ERASE;
                   action_userId := stroke_userId stroke;
                   action_timestamp := now;
                   action_data := stroke |} in
  (action, {| history := JsArray.push (history hs) action; redoStack := [] |}).

(** [undo]: the guard [history.length === 0] is the [None] of [pop]. The
    returned array is [this.history] itself. *)
Definition undo (hs : t) : list DrawingAction * t :=
  match JsArray.pop (history hs) with
  | None => (history hs, hs)
  | Some (lastAction, rest) =>
      (rest, {| history := rest;
                redoStack := JsArray.push (redoStack hs) lastAction |})
  end.

(** [redo]: the guard [redoStack.length === 0] is the [None] of [pop]. *)
Definition redo (hs : t) : list DrawingAction * t :=
  match JsArray.pop (redoStack hs) with
  | None => (history hs, hs)
  | Some (action, rest) =>
      let h := JsArray.push (history hs) action in
      (h, {| history := h; redoStack := rest |})
  end.

Definition getHistory (hs : t) : list DrawingAction := history hs.

Definition clear (hs : t) : t := {| history := []; redoStack := [] |}.

Definition getHistoryLength (hs : t) : nat := length (history hs).

Definition isStrokeAction (a : DrawingAction) : bool :=
  match action_type a with
  | STROKE_DRAW | STROKE_ERASE => true
  | CLEAR_ALL => false
  end.

(** [a.timestamp ?? 0] on a stroke. *)
Definition strokeKey (s : Stroke) : Z := default 0 (stroke_timestamp s).

Definition getCurrentState (hs : t) : list Stroke :=
  JsArray.sort strokeKey
    (map action_data (filter (λ a, isStrokeAction a = true) (history hs))).

Definition getAction (actionId : string) (hs : t) : option DrawingAction :=
  find (λ a, bool_decide (action_id a = actionId)) (history hs).

Definition getHistorySince (timestamp : Z) (hs : t) : list DrawingAction :=
  filter (λ a, timestamp < action_timestamp a) (history hs).

End HistoryStore.

(** ** The client's replay ([client/src/CanvasManager.ts], [client/src/main.ts]) *)

Module Client.

(** The canvas as the sequence of strokes painted on it since it was last
    cleared, each with its eraser flag. *)
Definition Canvas := list (Stroke * bool).

Definition canvas_clear (c : Canvas) : Canvas := [].

(** [CanvasManager.drawStroke]: a stroke without points paints nothing. *)
Definition drawStroke (stroke : Stroke) (isEraser : bool) (c : Canvas) : Canvas :=
  if decide (length (stroke_points stroke) < 1)%nat then c
  else c ++ [(stroke, isEraser)].

(** [a.timestamp || 0] on an action: a falsy timestamp counts as 0. *)
Definition actionKey (a : DrawingAction) : Z :=
  if decide (action_timestamp a = 0) then 0 else action_timestamp a.

(** The local [sortedActions] of [redrawAll]. *)
Definition sortedActions (history : list DrawingAction) : list DrawingAction :=
  JsArray.sort actionKey
    (filter (λ a, HistoryStore.isStrokeAction a = true) history).

Definition redrawAll (history : list DrawingAction) (c : Canvas) : Canvas :=
  foldl (λ c action,
           drawStroke (action_data action)
                      (bool_decide (action_type action = STROKE_ERASE)) c)
        (canvas_clear c) (sortedActions history).

End Client.

(** ** Insertion-ordered [Map] *)

Module JsMap.

Section Ops.
Context {V : Type}.

(** [Map.prototype.set]: an existing key keeps its position. *)
Fixpoint set (k : string) (v : V) (m : list (string * V)) : list (string * V) :=
  match m with
  | [] => [(k, v)]
  | (k', v') :: m' =>
      if decide (k' = k) then (k, v) :: m' else (k', v') :: set k v m'
  end.

Fixpoint get (k : string) (m : list (string * V)) : option V :=
  match m with
  | [] => None
  | (k', v') :: m' => if decide (k' = k) then Some v' else get k m'
  end.

(** [Map.prototype.delete] *)
Fixpoint delete (k : string) (m : list (string * V)) : list (string * V) :=
  match m with
  | [] => []
  | (k', v') :: m' =>
      if decide (k' = k) then delete k m' else (k', v') :: delete k m'
  end.

Definition keys (m : list (string * V)) : list string := map fst m.
Definition values (m : list (string * V)) : list V := map snd m.
End Ops.

End JsMap.

(** A string in a condition: only the empty string is falsy. *)
Definition truthy (s : string) : bool := negb (bool_decide (s = EmptyString)).

(** ** The room registry ([RoomManager.ts]) *)

Module RoomManager.

(** [room.users] maps a socket id to a reference to a [User] object. The
    fields [history] and [historyIndex] are set by [createRoom] and never
    used again. *)
Record Room := mkRoom {
  room_id : string;
  room_name : string;
  room_users : list (string * nat);
  room_history : list DrawingAction;
  room_historyIndex : Z
}.

Record t := mk {
  rooms : gmap string Room;
  userToRoom : gmap string string;
  socketToUser : gmap string nat;
  heap : list User
}.

Definition createRoom (roomId roomName : string) (rm : t) : Room * t :=
  let room := {| room_id := roomId; room_name := roomName;
                 room_users := []; room_history := [];
                 room_historyIndex := 0 |} in
  (room, {| rooms := <[roomId := room]> (rooms rm);
            userToRoom := userToRoom rm;
            socketToUser := socketToUser rm;
            heap := heap rm |}).

(** [new RoomManager()]: the constructor creates the room 'main'. *)
Definition new : t :=
  snd (createRoom "main" "Main Canvas"
         {| rooms := ∅; userToRoom := ∅; socketToUser := ∅; heap := [] |}).

Definition getRoom (roomId : string) (rm : t) : option Room := rooms rm !! roomId.

Definition letters : string := "0123456789ABCDEF".

(** [letters[k]] appended to a string: an index out of range reads
    [undefined], which concatenates as the text "undefined". *)
Definition letterAt (k : nat) : string :=
  match String.get k letters with
  | Some c => String c EmptyString
  | None => "undefined"
  end.

(** [generateRandomColor]: [rnd i] is [Math.floor(Math.random() * 16)] at
    the [i]-th turn of the loop. *)
Definition generateRandomColor (rnd : nat → nat) : string :=
  foldl (λ color i, color +:+ letterAt (rnd i)) "#" (seq 0 6).

(** [addUserToRoom]: [inl] is the thrown error's message. The new [User]
    object is allocated at the end of the heap and its reference is stored
    in [room.users] and in [socketToUser]; the reference is returned. *)
Definition addUserToRoom (socketId roomId : string) (rnd : nat → nat) (rm : t)
  : string + (nat * t) :=
  match getRoom roomId rm with
  | None => inl ("Room " +:+ roomId +:+ " not found")
  | Some room =>
      let color := generateRandomColor rnd in
      let user := {| user_id := socketId;
                     user_color := color;
                     user_name := "User-" +:+ String.substring 0 5 socketId |} in
      let ref := length (heap rm) in
      let room' := {| room_id := room_id room; room_name := room_name room;
                      room_users := JsMap.set socketId ref (room_users room);
                      room_history := room_history room;
                      room_historyIndex := room_historyIndex room |} in
      inr (ref, {| rooms := <[roomId := room']> (rooms rm);
                   userToRoom := <[socketId := roomId]> (userToRoom rm);
                   socketToUser := <[socketId := ref]> (socketToUser rm);
                   heap := heap rm ++ [user] |})
  end.

Definition removeUser (socketId : string) (rm : t) : t :=
  let rm1 :=
    match userToRoom rm !! socketId with
    | Some roomId =>
        if truthy roomId then
          let rooms' :=
            match getRoom roomId rm with
            | Some room =>
                <[roomId := {| room_id := room_id room;
                               room_name := room_name room;
                               room_users := JsMap.delete socketId (room_users room);
                               room_history := room_history room;
                               room_historyIndex := room_historyIndex room |}]>
                  (rooms rm)
            | None => rooms rm
            end in
          {| rooms := rooms'; userToRoom := delete socketId (userToRoom rm);
             socketToUser := socketToUser rm; heap := heap rm |}
        else rm
    | None => rm
    end in
  {| rooms := rooms rm1; userToRoom := userToRoom rm1;
     socketToUser := delete socketId (socketToUser rm1); heap := heap rm1 |}.

Definition getUser (socketId : string) (rm : t) : option User :=
  socketToUser rm !! socketId ≫= λ ref, heap rm !! ref.

(** [Array.from(room.users.values())]: the objects behind the references,
    in insertion order. *)
Definition getUsersInRoom (roomId : string) (rm : t) : list User :=
  match getRoom roomId rm with
  | None => []
  | Some room => omap (λ ref, heap rm !! ref) (JsMap.values (room_users room))
  end.

Definition getRoomIdForUser (socketId : string) (rm : t) : option string :=
  userToRoom rm !! socketId.

Definition getRoomForUser (socketId : string) (rm : t) : option Room :=
  match userToRoom rm !! socketId with
  | Some roomId => if truthy roomId then getRoom roomId rm else None
  | None => None
  end.

Definition getAllRooms (rm : t) : list Room := (map_to_list (rooms rm)).*2.

Definition setName (name : string) (u : User) : User :=
  {| user_id := user_id u; user_color := user_color u; user_name := name |}.

(** [updateUserName]: [user.name = name] writes the object that
    [socketToUser] refers to. *)
Definition updateUserName (socketId name : string) (rm : t) : t :=
  match socketToUser rm !! socketId with
  | Some ref => {| rooms := rooms rm; userToRoom := userToRoom rm;
                   socketToUser := socketToUser rm;
                   heap := alter (setName name) ref (heap rm) |}
  | None => rm
  end.

(** The socket ids listed in a room's member map. *)
Definition members (roomId : string) (rm : t) : list string :=
  match getRoom roomId rm with
  | None => []
  | Some room => JsMap.keys (room_users room)
  end.

End RoomManager.

(** ** The gateway ([index.ts]) *)

Module Server.

(** What a client can be sent. [callback] is the invocation of the
    acknowledgement function that came with the request. *)
Inductive Event :=
| users_update (users : list User)
| history_sync (history : list DrawingAction)
| draw_line (data : Stroke)
| erase (data : Stroke)
| cursor_update (cursorData : CursorPosition)
| canvas_cleared
| callback_ok
| callback_error (message : string)
| callback_history (history : list DrawingAction).

(** One message on the wire: the receiving socket, the [volatile] flag and
    the event. Console output reaches no client and is not modelled, and
    neither are the adapter's private rooms named after each socket id,
    which no handler addresses. *)
Record Emission := mkEmission {
  to : string;
  volatile : bool;
  event : Event
}.

(** The state of the process: the two module-level objects, the rooms of
    the socket.io adapter (room name to member sockets) and, per
    connection, the closure variable [currentRoomId] (absent while it is
    [undefined]). *)
Record t := mk {
  roomManager : RoomManager.t;
  roomHistories : gmap string HistoryStore.t;
  adapter : gmap string (list string);
  currentRoomId : gmap string string
}.

Definition init : t :=
  {| roomManager := RoomManager.new;
     roomHistories := {[ "main" := HistoryStore.new ]};
     adapter := ∅;
     currentRoomId := ∅ |}.

(** *** socket.io rooms *)

Definition socketsIn (room : string) (ad : gmap string (list string)) : list string :=
  default [] (ad !! room).

(** [socket.join(room)] *)
Definition socket_join (sid room : string) (ad : gmap string (list string))
  : gmap string (list string) :=
  if bool_decide (sid ∈ socketsIn room ad) then ad
  else <[room := socketsIn room ad ++ [sid]]> ad.

(** [socket.leave(room)] *)
Definition socket_leave (sid room : string) (ad : gmap string (list string))
  : gmap string (list string) :=
  match ad !! room with
  | Some l => <[room := filter (λ s, s ≠ sid) l]> ad
  | None => ad
  end.

(** [io.to(room).emit(ev)] *)
Definition io_to (room : string) (ev : Event) (ad : gmap string (list string))
  : list Emission :=
  map (λ s, {| to := s; volatile := false; event := ev |}) (socketsIn room ad).

(** [socket.broadcast.to(room).emit(ev)], with [.volatile] when [vol]. *)
Definition broadcast_to (sid room : string) (vol : bool) (ev : Event)
    (ad : gmap string (list string)) : list Emission :=
  map (λ s, {| to := s; volatile := vol; event := ev |})
      (filter (λ s, s ≠ sid) (socketsIn room ad)).

(** [socket.emit(ev)] *)
Definition socket_emit (sid : string) (ev : Event) : list Emission :=
  [{| to := sid; volatile := false; event := ev |}].

(** [ack?.(...)]: the acknowledgement is sent when the request had one. *)
Definition ack (has_ack : bool) (sid : string) (ev : Event) : list Emission :=
  if has_ack then socket_emit sid ev else [].

(** *** The logs *)

(** [getHistoryStore]: the store of the room, created when absent. *)
Definition getHistoryStore (roomId : string) (m : gmap string HistoryStore.t)
  : HistoryStore.t * gmap string HistoryStore.t :=
  match m !! roomId with
  | Some hs => (hs, m)
  | None => (HistoryStore.new, <[roomId := HistoryStore.new]> m)
  end.

(** The method a structural handler calls on the store it looked up. *)
Inductive LogOp :=
| OpAddStroke (uuid : string) (now : Z) (data : Stroke)
| OpAddErase (uuid : string) (now : Z) (data : Stroke)
| OpUndo
| OpRedo
| OpClear.

Definition applyLogOp (op : LogOp) (hs : HistoryStore.t) : HistoryStore.t :=
  match op with
  | OpAddStroke uuid now data => snd (HistoryStore.addStroke uuid now data hs)
  | OpAddErase uuid now data => snd (HistoryStore.addErase uuid now data hs)
  | OpUndo => snd (HistoryStore.undo hs)
  | OpRedo => snd (HistoryStore.redo hs)
  | OpClear => HistoryStore.clear hs
  end.

(** [getHistoryStore(roomId)] followed by a method call on the store
    object: the map then holds the mutated store. *)
Definition onStore (roomId : string) (op : LogOp) (m : gmap string HistoryStore.t)
  : gmap string HistoryStore.t :=
  let '(hs, m') := getHistoryStore roomId m in
  <[roomId := applyLogOp op hs]> m'.

Definition isAppend (op : LogOp) : bool :=
  match op with
  | OpAddStroke _ _ _ | OpAddErase _ _ _ => true
  | _ => false
  end.

(** [getHistoryStore(roomId).getHistory()] *)
Definition snapshot (roomId : string) (m : gmap string HistoryStore.t)
  : list DrawingAction :=
  HistoryStore.getHistory (fst (getHistoryStore roomId m)).

(** A sequence of room-scoped log operations, each with its room. *)
Definition runLog (ops : list (string * LogOp)) (m : gmap string HistoryStore.t)
  : gmap string HistoryStore.t :=
  foldl (λ m o, onStore o.1 o.2 m) m ops.

(** *** Handlers *)

(** The value of [currentRoomId] when it passes the guard
    [if (!currentRoomId) return]: defined and not the empty string. *)
Definition joinedRoom (sid : string) (st : t) : option string :=
  match currentRoomId st !! sid with
  | Some r => if truthy r then Some r else None
  | None => None
  end.

Definition with_histories (m : gmap string HistoryStore.t) (st : t) : t :=
  {| roomManager := roomManager st; roomHistories := m;
     adapter := adapter st; currentRoomId := currentRoomId st |}.

(** The first block of [join_room], 'Leave previous room if in one': the
    socket leaves the socket.io room and the roster of the room the
    registry has for it is sent to that room. The registry is not
    touched. *)
Definition leavePrevious (sid : string) (st : t)
  : gmap string (list string) * list Emission :=
  match joinedRoom sid st with
  | Some cur =>
      let ad := socket_leave sid cur (adapter st) in
      match RoomManager.getRoomIdForUser sid (roomManager st) with
      | Some prevRoom =>
          if truthy prevRoom then
            (ad, io_to prevRoom
                   (users_update (RoomManager.getUsersInRoom prevRoom (roomManager st)))
                   ad)
          else (ad, [])
      | None => (ad, [])
      end
  | None => (adapter st, [])
  end.

(** [join_room]: [roomIdArg = None] is the omitted argument, defaulted to
    'main'. The effects that precede a throw of [addUserToRoom] stay. *)
Definition join_room (sid : string) (roomIdArg : option string) (has_cb : bool)
    (rnd : nat → nat) (st : t) : t * list Emission :=
  let roomId := default "main" roomIdArg in
  let '(ad1, out1) := leavePrevious sid st in
  match RoomManager.addUserToRoom sid roomId rnd (roomManager st) with
  | inl message =>
      ({| roomManager := roomManager st; roomHistories := roomHistories st;
          adapter := ad1; currentRoomId := currentRoomId st |},
       out1 ++ ack has_cb sid (callback_error message))
  | inr (user, rm) =>
      let ad2 := socket_join sid roomId ad1 in
      let '(hs, m) := getHistoryStore roomId (roomHistories st) in
      let history := HistoryStore.getHistory hs in
      let roomUsers := RoomManager.getUsersInRoom roomId rm in
      ({| roomManager := rm; roomHistories := m; adapter := ad2;
          currentRoomId := <[sid := roomId]> (currentRoomId st) |},
       out1 ++ socket_emit sid (history_sync history)
            ++ io_to roomId (users_update roomUsers) ad2
            ++ ack has_cb sid callback_ok)
  end.

Definition on_draw_line (sid : string) (data : Stroke) (has_ack : bool) (st : t)
  : t * list Emission :=
  match joinedRoom sid st with
  | None => (st, [])
  | Some cur =>
      (st, broadcast_to sid cur false (draw_line data) (adapter st)
             ++ ack has_ack sid callback_ok)
  end.

Definition draw_finish (sid : string) (data : Stroke) (has_ack : bool)
    (uuid : string) (now : Z) (st : t) : t * list Emission :=
  match joinedRoom sid st with
  | None => (st, [])
  | Some cur =>
      let '(history, m) := getHistoryStore cur (roomHistories st) in
      let '(_, history') := HistoryStore.addStroke uuid now data history in
      (with_histories (<[cur := history']> m) st,
       ack has_ack sid callback_ok)
  end.

Definition on_erase (sid : string) (data : Stroke) (has_ack : bool)
    (uuid : string) (now : Z) (st : t) : t * list Emission :=
  match joinedRoom sid st with
  | None => (st, [])
  | Some cur =>
      let '(history, m) := getHistoryStore cur (roomHistories st) in
      let '(_, history') := HistoryStore.addErase uuid now data history in
      (with_histories (<[cur := history']> m) st,
       broadcast_to sid cur false (erase data) (adapter st)
         ++ ack has_ack sid callback_ok)
  end.

Definition cursor_move (sid : string) (x y : Z) (st : t) : t * list Emission :=
  match joinedRoom sid st with
  | None => (st, [])
  | Some cur =>
      match RoomManager.getUser sid (roomManager st) with
      | None => (st, [])
      | Some user =>
          let cursorData := {| cursor_userId := sid; cursor_x := x; cursor_y := y;
                               cursor_color := user_color user;
                               cursor_name := user_name user |} in
          (st, broadcast_to sid cur true (cursor_update cursorData) (adapter st))
      end
  end.

Definition undo (sid : string) (has_ack : bool) (st : t) : t * list Emission :=
  match joinedRoom sid st with
  | None => (st, [])
  | Some cur =>
      let '(history, m) := getHistoryStore cur (roomHistories st) in
      let '(updatedHistory, history') := HistoryStore.undo history in
      (with_histories (<[cur := history']> m) st,
       io_to cur (history_sync updatedHistory) (adapter st)
         ++ ack has_ack sid (callback_history updatedHistory))
  end.

Definition redo (sid : string) (has_ack : bool) (st : t) : t * list Emission :=
  match joinedRoom sid st with
  | None => (st, [])
  | Some cur =>
      let '(history, m) := getHistoryStore cur (roomHistories st) in
      let '(updatedHistory, history') := HistoryStore.redo history in
      (with_histories (<[cur := history']> m) st,
       io_to cur (history_sync updatedHistory) (adapter st)
         ++ ack has_ack sid (callback_history updatedHistory))
  end.

Definition clear_canvas (sid : string) (has_ack : bool) (st : t) : t * list Emission :=
  match joinedRoom sid st with
  | None => (st, [])
  | Some cur =>
      let '(history, m) := getHistoryStore cur (roomHistories st) in
      (with_histories (<[cur := HistoryStore.clear history]> m) st,
       io_to cur canvas_cleared (adapter st)
         ++ io_to cur (history_sync []) (adapter st)
         ++ ack has_ack sid callback_ok)
  end.

(** [disconnect]: socket.io has taken the socket out of every room before
    the listener runs. *)
Definition disconnect (sid : string) (st : t) : t * list Emission :=
  let ad := (λ l : list string, filter (λ s, s ≠ sid) l) <$> adapter st in
  match joinedRoom sid st with
  | None => ({| roomManager := roomManager st; roomHistories := roomHistories st;
                adapter := ad; currentRoomId := currentRoomId st |}, [])
  | Some cur =>
      let rm := RoomManager.removeUser sid (roomManager st) in
      ({| roomManager := rm; roomHistories := roomHistories st;
          adapter := ad; currentRoomId := currentRoomId st |},
       io_to cur (users_update (RoomManager.getUsersInRoom cur rm)) ad)
  end.

(** *** Requests *)

Inductive Request :=
| JoinRoom (roomId : option string) (has_cb : bool) (rnd : nat → nat)
| DrawLine (data : Stroke) (has_ack : bool)
| DrawFinish (data : Stroke) (has_ack : bool) (uuid : string) (now : Z)
| Erase (data : Stroke) (has_ack : bool) (uuid : string) (now : Z)
| CursorMove (x y : Z)
| Undo (has_ack : bool)
| Redo (has_ack : bool)
| ClearCanvas (has_ack : bool)
| Disconnect.

Definition handle (sid : string) (req : Request) (st : t) : t * list Emission :=
  match req with
  | JoinRoom roomId has_cb rnd => join_room sid roomId has_cb rnd st
  | DrawLine data has_ack => on_draw_line sid data has_ack st
  | DrawFinish data has_ack uuid now => draw_finish sid data has_ack uuid now st
  | Erase data has_ack uuid now => on_erase sid data has_ack uuid now st
  | CursorMove x y => cursor_move sid x y st
  | Undo has_ack => undo sid has_ack st
  | Redo has_ack => redo sid has_ack st
  | ClearCanvas has_ack => clear_canvas sid has_ack st
  | Disconnect => disconnect sid st
  end.

(** The structural requests: those that go to an action log. *)
Definition structural (req : Request) : bool :=
  match req with
  | DrawFinish _ _ _ _ | Erase _ _ _ _ | Undo _ | Redo _ | ClearCanvas _ => true
  | _ => false
  end.

(** The store method behind a structural request. *)
Definition logOpOf (req : Request) : option LogOp :=
  match req with
  | DrawFinish data _ uuid now => Some (OpAddStroke uuid now data)
  | Erase data _ uuid now => Some (OpAddErase uuid now data)
  | Undo _ => Some OpUndo
  | Redo _ => Some OpRedo
  | ClearCanvas _ => Some OpClear
  | _ => None
  end.

(** The room and the store method of a structural request, when its
    connection is joined. *)
Definition scopedOp (st : t) (x : string * Request) : option (string * LogOp) :=
  match joinedRoom x.1 st, logOpOf x.2 with
  | Some cur, Some op => Some (cur, op)
  | _, _ => None
  end.

(** The requests of a trace, one after the other, with all they emit. *)
Fixpoint run (trace : list (string * Request)) (st : t) : t * list Emission :=
  match trace with
  | [] => (st, [])
  | (sid, req) :: trace' =>
      let '(st1, out1) := handle sid req st in
      let '(st2, out2) := run trace' st1 in
      (st2, out1 ++ out2)
  end.

(** Does an emission tell its receiver of an error? *)
Definition isError (e : Emission) : bool :=
  match event e with
  | callback_error _ => true
  | _ => false
  end.

End Server.

(** ** Sample data *)

Module Sample.

Definition stroke (id userId : string) (timestamp : option Z) : Stroke :=
  {| stroke_id := id; stroke_userId := userId; stroke_color := "#000000";
     stroke_width := 5; stroke_points := [mkPoint 0 0; mkPoint 10 10];
     stroke_isFinished := true; stroke_timestamp := timestamp |}.

(** Two strokes whose authors' clocks disagree: [s2] is finished after
    [s1] and carries the earlier timestamp. *)
Definition s1 : Stroke := stroke "s1" "alice" (Some 200).
Definition s2 : Stroke := stroke "s2" "bob" (Some 100).

(** A stroke started after [s1]. *)
Definition s3 : Stroke := stroke "s3" "bob" (Some 300).

(** The log after [addStroke(s1)] and then [addStroke(s2)] on a new store,
    the server's clock reading 1000 and then 1001. *)
Definition skewed : HistoryStore.t :=
  snd (HistoryStore.addStroke "id-2" 1001 s2
         (snd (HistoryStore.addStroke "id-1" 1000 s1 HistoryStore.new))).

(** The log after [addStroke(s1)] and then [addStroke(s3)]. *)
Definition ordered : HistoryStore.t :=
  snd (HistoryStore.addStroke "id-3" 1001 s3
         (snd (HistoryStore.addStroke "id-1" 1000 s1 HistoryStore.new))).

(** A history received by a client in which the server's clock stepped
    back between the two appends. *)
Definition stepped_back : list DrawingAction :=
  [ mkAction "id-1" STROKE_DRAW "alice" 1000 s1;
    mkAction "id-2" STROKE_ERASE "bob" 999 s2 ].

(** [Math.random()] always in the first sixteenth, and a cycle over the
    sixteen letters. *)
Definition rnd0 : nat → nat := λ _, 0%nat.
Definition rndCycle : nat → nat := λ i, ((7 * i + 3) `mod` 16)%nat.

(** The server with two sockets joined to 'main'. *)
Definition two_joined : Server.t :=
  fst (Server.run [("s1", Server.JoinRoom (Some "main") true rnd0);
                   ("s2", Server.JoinRoom None true rndCycle)] Server.init).

(** A registry in which [createRoom('room2', 'Room 2')] was called after
    the constructor, and the server on it. *)
Definition two_rooms : Server.t :=
  {| Server.roomManager := snd (RoomManager.createRoom "room2" "Room 2" RoomManager.new);
     Server.roomHistories := Server.roomHistories Server.init;
     Server.adapter := Server.adapter Server.init;
     Server.currentRoomId := Server.currentRoomId Server.init |}.

(** Appends that alternate between two rooms. *)
Definition interleaved : list (string * Server.LogOp) :=
  [ ("main", Server.OpAddStroke "id-1" 1000 s1);
    ("room2", Server.OpAddStroke "id-2" 1001 s2);
    ("main", Server.OpAddErase "id-3" 1002 s3) ].

End Sample.

(** ** Sequences of operations *)

Module Ops.

(** The undo/redo timeline of a store: the entries, then the undone
    actions, the one undone last first. *)
Definition timeline (hs : HistoryStore.t) : list DrawingAction :=
  HistoryStore.history hs ++ reverse (HistoryStore.redoStack hs).

(** Store methods called one after the other on one store. *)
Definition runStore (ops : list Server.LogOp) (hs : HistoryStore.t) : HistoryStore.t :=
  foldl (λ hs op, Server.applyLogOp op hs) hs ops.

Definition isUndoRedo (op : Server.LogOp) : bool :=
  match op with
  | Server.OpUndo | Server.OpRedo => true
  | _ => false
  end.

(** The public methods of [RoomManager] that write the registry. *)
Inductive RegistryOp :=
| CreateRoom (roomId roomName : string)
| AddUserToRoom (socketId roomId : string) (rnd : nat → nat)
| RemoveUser (socketId : string)
| UpdateUserName (socketId name : string).

(** A call whose [addUserToRoom] throws leaves the registry as it was. *)
Definition applyRegistryOp (op : RegistryOp) (rm : RoomManager.t) : RoomManager.t :=
  match op with
  | CreateRoom roomId roomName => snd (RoomManager.createRoom roomId roomName rm)
  | AddUserToRoom socketId roomId rnd =>
      match RoomManager.addUserToRoom socketId roomId rnd rm with
      | inr (_, rm') => rm'
      | inl _ => rm
      end
  | RemoveUser socketId => RoomManager.removeUser socketId rm
  | UpdateUserName socketId name => RoomManager.updateUserName socketId name rm
  end.

Definition runRegistry (ops : list RegistryOp) (rm : RoomManager.t) : RoomManager.t :=
  foldl (λ rm op, applyRegistryOp op rm) rm ops.

(** Every entry of every room's member map refers to a [User] object
    whose id is the entry's key, and no key is there twice. *)
Definition consistent (rm : RoomManager.t) : Prop :=
  ∀ roomId room, RoomManager.rooms rm !! roomId = Some room →
    NoDup (JsMap.keys (RoomManager.room_users room)) ∧
    Forall (λ kv, ∃ user, RoomManager.heap rm !! kv.2 = Some user ∧
                          user_id user = kv.1)
           (RoomManager.room_users room).

(** The server knows the room 'main' and no other: in its registry, in
    the [currentRoomId] of its connections, in its logs and in the rooms
    of the socket.io adapter. *)
Definition onlyMain (st : Server.t) : Prop :=
  dom (RoomManager.rooms (Server.roomManager st)) = ({["main"]} : gset string) ∧
  (∀ sid r, Server.currentRoomId st !! sid = Some r → r = "main") ∧
  dom (Server.roomHistories st) = ({["main"]} : gset string) ∧
  (∀ r, r ≠ "main" → Server.socketsIn r (Server.adapter st) = []).

End Ops.

(** ** The canvas ([client/src/CanvasManager.ts]) *)

Module CanvasManager.

(** [a.timestamp || 0] on a stroke: a missing or zero timestamp is 0. *)
Definition strokeKey (s : Stroke) : Z :=
  match stroke_timestamp s with
  | Some t => if decide (t = 0) then 0 else t
  | None => 0
  end.

Definition drawErase (stroke : Stroke) (c : Client.Canvas) : Client.Canvas :=
  Client.drawStroke stroke true c.

(** [redrawAll(strokes)]: every stroke is painted with the default
    [isEraser = false]. *)
Definition redrawAll (strokes : list Stroke) (c : Client.Canvas) : Client.Canvas :=
  foldl (λ c stroke, Client.drawStroke stroke false c)
        (Client.canvas_clear c) (JsArray.sort strokeKey strokes).

Definition drawStrokes (strokes : list Stroke) (c : Client.Canvas) : Client.Canvas :=
  foldl (λ c stroke, Client.drawStroke stroke false c) c strokes.

End CanvasManager.

(** ** The drawing loop of the client ([client/src/main.ts]) *)

Module Main.

Inductive Tool := brush | eraser.

(** What the client sends: the [emit...] methods of [SocketManager]. A
    stroke is sent as it is when [emit] is called. *)
Inductive Outbound :=
| emitDraw (stroke : Stroke)
| emitFinish (stroke : Stroke)
| emitErase (stroke : Stroke)
| emitCursorMove (x y : Z)
| emitUndo
| emitRedo
| emitClear.

(** The module-level variables of [main.ts], the canvas, and what the
    socket reports ([isConnected()], [getSocketId()]). *)
Record t := mk {
  isDrawing : bool;
  currentStroke : option Stroke;
  history : list DrawingAction;
  myColor : string;
  myWidth : Z;
  myTool : Tool;
  currentUsers : list User;
  lastEmitTime : Z;
  canvas : Client.Canvas;
  connected : bool;
  socketId : string
}.

Definition init (connected : bool) (socketId : string) : t :=
  {| isDrawing := false; currentStroke := None; history := [];
     myColor := "#000000"; myWidth := 5; myTool := brush; currentUsers := [];
     lastEmitTime := 0; canvas := []; connected := connected;
     socketId := socketId |}.

Definition EMIT_THROTTLE : Z := 20.

Definition isEraser (tool : Tool) : bool :=
  match tool with eraser => true | brush => false end.

Definition with_canvas (c : Client.Canvas) (app : t) : t :=
  {| isDrawing := isDrawing app; currentStroke := currentStroke app;
     history := history app; myColor := myColor app; myWidth := myWidth app;
     myTool := myTool app; currentUsers := currentUsers app;
     lastEmitTime := lastEmitTime app; canvas := c;
     connected := connected app; socketId := socketId app |}.

(** [startDrawing(x, y)], with the [uuidv4()] and the [Date.now()] it
    reads. *)
Definition startDrawing (x y : Z) (uuid : string) (now : Z) (app : t) : t :=
  if negb (connected app) then app
  else
    let stroke := {| stroke_id := uuid; stroke_userId := socketId app;
                     stroke_color := myColor app; stroke_width := myWidth app;
                     stroke_points := [mkPoint x y]; stroke_isFinished := false;
                     stroke_timestamp := Some now |} in
    {| isDrawing := true; currentStroke := Some stroke;
       history := history app; myColor := myColor app; myWidth := myWidth app;
       myTool := myTool app; currentUsers := currentUsers app;
       lastEmitTime := lastEmitTime app;
       canvas := Client.drawStroke stroke (isEraser (myTool app)) (canvas app);
       connected := connected app; socketId := socketId app |}.

Definition pushPoint (p : Point) (s : Stroke) : Stroke :=
  {| stroke_id := stroke_id s; stroke_userId := stroke_userId s;
     stroke_color := stroke_color s; stroke_width := stroke_width s;
     stroke_points := JsArray.push (stroke_points s) p;
     stroke_isFinished := stroke_isFinished s;
     stroke_timestamp := stroke_timestamp s |}.

Definition finished (s : Stroke) : Stroke :=
  {| stroke_id := stroke_id s; stroke_userId := stroke_userId s;
     stroke_color := stroke_color s; stroke_width := stroke_width s;
     stroke_points := stroke_points s; stroke_isFinished := true;
     stroke_timestamp := stroke_timestamp s |}.

(** [continueDrawing(x, y)], with the [Date.now()] it reads. *)
Definition continueDrawing (x y : Z) (now : Z) (app : t) : t * list Outbound :=
  match isDrawing app, currentStroke app with
  | true, Some stroke0 =>
      let stroke := pushPoint (mkPoint x y) stroke0 in
      let c := Client.drawStroke stroke (isEraser (myTool app)) (canvas app) in
      let throttled := bool_decide (now - lastEmitTime app > EMIT_THROTTLE) in
      ({| isDrawing := true; currentStroke := Some stroke;
          history := history app; myColor := myColor app; myWidth := myWidth app;
          myTool := myTool app; currentUsers := currentUsers app;
          lastEmitTime := if throttled then now else lastEmitTime app;
          canvas := c; connected := connected app; socketId := socketId app |},
       emitCursorMove x y ::
       (if throttled
        then [if isEraser (myTool app) then emitErase stroke else emitDraw stroke]
        else []))
  | _, _ => (app, [])
  end.

Definition finishDrawing (app : t) : t * list Outbound :=
  match isDrawing app, currentStroke app with
  | true, Some stroke0 =>
      let stroke := finished stroke0 in
      ({| isDrawing := false; currentStroke := None;
          history := history app; myColor := myColor app; myWidth := myWidth app;
          myTool := myTool app; currentUsers := currentUsers app;
          lastEmitTime := lastEmitTime app; canvas := canvas app;
          connected := connected app; socketId := socketId app |},
       [if isEraser (myTool app) then emitErase stroke else emitFinish stroke])
  | _, _ => (app, [])
  end.

(** The listeners of the events the server sends. *)
Definition onHistorySync (serverHistory : list DrawingAction) (app : t) : t :=
  {| isDrawing := isDrawing app; currentStroke := currentStroke app;
     history := serverHistory; myColor := myColor app; myWidth := myWidth app;
     myTool := myTool app; currentUsers := currentUsers app;
     lastEmitTime := lastEmitTime app;
     canvas := Client.redrawAll serverHistory (canvas app);
     connected := connected app; socketId := socketId app |}.

Definition onDrawLine (remoteStroke : Stroke) (app : t) : t :=
  with_canvas (Client.drawStroke remoteStroke false (canvas app)) app.

Definition onErase (remoteStroke : Stroke) (app : t) : t :=
  with_canvas (CanvasManager.drawErase remoteStroke (canvas app)) app.

Definition onCanvasCleared (app : t) : t :=
  with_canvas (Client.canvas_clear (canvas app)) app.

Definition isCursorMove (o : Outbound) : bool :=
  match o with emitCursorMove _ _ => true | _ => false end.

(** A gesture after [startDrawing]: the moves, each with its clock
    reading, and then the release. *)
Fixpoint moves (ps : list (Point * Z)) (app : t) : t * list Outbound :=
  match ps with
  | [] => (app, [])
  | (p, now) :: ps' =>
      let '(app1, out1) := continueDrawing (px p) (py p) now app in
      let '(app2, out2) := moves ps' app1 in
      (app2, out1 ++ out2)
  end.

Definition gesture (x y : Z) (uuid : string) (now : Z) (ps : list (Point * Z))
    (app : t) : t * list Outbound :=
  let '(app1, out1) := moves ps (startDrawing x y uuid now app) in
  let '(app2, out2) := finishDrawing app1 in
  (app2, out1 ++ out2).

End Main.

(** * Properties *)

(** ** Arrays *)

Section PopFacts.
Context {A : Type}.
Implicit Types (l : list A) (x : A).

Lemma pop_nil : JsArray.pop (@nil A) = None.
Proof. reflexivity. Qed.

Lemma pop_push l x : JsArray.pop (JsArray.push l x) = Some (x, l).
Proof.
  unfold JsArray.pop, JsArray.push.
  by rewrite last_snoc, removelast_last.
Qed.

Lemma pop_Some l x l' : JsArray.pop l = Some (x, l') → l = JsArray.push l' x.
Proof.
  unfold JsArray.pop, JsArray.push.
  destruct l as [|y l] using rev_ind; [done|].
  rewrite last_snoc, removelast_last. by intros [= <- <-].
Qed.

Lemma pop_None l : JsArray.pop l = None → l = [].
Proof.
  destruct l as [|y l] using rev_ind; [done|].
  change (l ++ [y]) with (JsArray.push l y). by rewrite pop_push.
Qed.
End PopFacts.

Lemma Before_sublist {A} (a b : A) l : Before a b l ↔ [a; b] `sublist_of` l.
Proof.
  split.
  - intros (r1 & r2 & r3 & ->).
    apply sublist_inserts_l, sublist_skip, sublist_inserts_l, sublist_skip,
      sublist_nil_l.
  - intros (r1 & k & -> & H)%sublist_cons_l.
    apply sublist_cons_l in H as (r2 & r3 & -> & _).
    by exists r1, r2, r3.
Qed.

Section SortFacts.
Context {A : Type} (key : A → Z).
Implicit Types (l : list A) (x a b : A).


(** Where [insert] puts the new element. *)
Lemma insert_split x l :
  ∃ l1 l2, l = l1 ++ l2 ∧ JsArray.insert key x l = l1 ++ x :: l2 ∧
           Forall (λ y, key y < key x) l1 ∧
           (StronglySorted (JsArray.le_key key) l → Forall (λ y, key x ≤ key y) l2).
Proof.
  induction l as [|y l IH]; simpl.
  - exists [], []. by repeat split.
  - destruct (decide (key x ≤ key y)) as [Hle|Hgt].
    + exists [], (y :: l). repeat split; [by constructor|].
      intros Hs. apply StronglySorted_inv in Hs as [_ Hall].
      constructor; [done|].
      eapply Forall_impl; [exact Hall|]. unfold JsArray.le_key. simpl. intros z Hz. lia.
    + destruct IH as (l1 & l2 & -> & Hins & Hlt & Hge).
      exists (y :: l1), l2. rewrite Hins. repeat split.
      * constructor; [lia | done].
      * intros Hs. apply StronglySorted_inv in Hs as [Hs _]. auto.
Qed.

Lemma sort_perm l : JsArray.sort key l ≡ₚ l.
Proof.
  induction l as [|x l IH]; simpl; [done|].
  destruct (insert_split x (JsArray.sort key l)) as (l1 & l2 & Heq & -> & _).
  rewrite <- IH, Heq. by rewrite Permutation_middle.
Qed.

Lemma sort_sorted l : StronglySorted (JsArray.le_key key) (JsArray.sort key l).
Proof.
  induction l as [|x l IH]; simpl; [constructor|].
  destruct (insert_split x (JsArray.sort key l))
    as (l1 & l2 & Heq & -> & Hlt & Hge).
  specialize (Hge IH). rewrite Heq in IH. clear Heq.
  induction l1 as [|y l1 IHl1]; simpl in *.
  - constructor; [|done].
    clear -IH. induction l2; [constructor|].
    apply StronglySorted_inv in IH as [? ?]. by constructor.
  - apply StronglySorted_inv in IH as [Hs Hall].
    apply Forall_cons in Hlt as [Hy Hlt].
    constructor; [by apply IHl1|].
    apply Forall_app in Hall as [Hall1 Hall2].
    apply Forall_app. split; [done|].
    constructor; [unfold JsArray.le_key; lia | done].
Qed.

Lemma insert_keeps_order x a b l :
  Before a b l → Before a b (JsArray.insert key x l).
Proof.
  rewrite !Before_sublist. intros H.
  destruct (insert_split x l) as (l1 & l2 & -> & -> & _).
  etrans; [exact H|]. apply sublist_app; [done|]. by apply sublist_cons.
Qed.

Lemma insert_first x b l :
  key x ≤ key b → b ∈ l → Before x b (JsArray.insert key x l).
Proof.
  intros Hle Hin. rewrite Before_sublist.
  destruct (insert_split x l) as (l1 & l2 & -> & -> & Hlt & _).
  apply elem_of_app in Hin as [Hin|Hin].
  - rewrite Forall_forall in Hlt. specialize (Hlt _ Hin). lia.
  - apply sublist_inserts_l, sublist_skip. by apply singleton_sublist_l.
Qed.

Lemma insert_last x b l :
  StronglySorted (JsArray.le_key key) l → key b < key x → b ∈ l →
  Before b x (JsArray.insert key x l).
Proof.
  intros Hs Hlt Hin. rewrite Before_sublist.
  destruct (insert_split x l) as (l1 & l2 & -> & -> & _ & Hge).
  specialize (Hge Hs).
  apply elem_of_app in Hin as [Hin|Hin].
  - apply list_elem_of_split in Hin as (k1 & k2 & ->).
    rewrite <- !app_assoc. simpl.
    apply sublist_inserts_l, sublist_skip, sublist_inserts_l, sublist_skip,
      sublist_nil_l.
  - rewrite Forall_forall in Hge. specialize (Hge _ Hin). lia.
Qed.

(** The sort is stable: it never swaps two elements whose keys are in
    order. *)
Lemma sort_stable a b l :
  Before a b l → key a ≤ key b → Before a b (JsArray.sort key l).
Proof.
  intros H Hle. induction l as [|x l IH]; simpl.
  - destruct H as (r1 & r2 & r3 & H). by destruct r1.
  - apply Before_sublist in H. apply sublist_cons_r in H as [H|(k & Hk & H)].
    + apply insert_keeps_order, IH. by apply Before_sublist.
    + injection Hk as <- <-. apply insert_first; [done|].
      rewrite sort_perm. by apply singleton_sublist_l.
Qed.

(** ... and it swaps every two elements whose keys are not. *)
Lemma sort_swaps a b l :
  Before a b l → key b < key a → Before b a (JsArray.sort key l).
Proof.
  intros H Hlt. induction l as [|x l IH]; simpl.
  - destruct H as (r1 & r2 & r3 & H). by destruct r1.
  - apply Before_sublist in H. apply sublist_cons_r in H as [H|(k & Hk & H)].
    + apply insert_keeps_order, IH. by apply Before_sublist.
    + injection Hk as <- <-. apply insert_last; [apply sort_sorted|done|].
      rewrite sort_perm. by apply singleton_sublist_l.
Qed.

(** An array whose keys never decrease is left as it is. *)
Lemma sort_sorted_id l : StronglySorted (JsArray.le_key key) l → JsArray.sort key l = l.
Proof.
  induction 1 as [|x l Hs IH Hall]; simpl; [done|].
  rewrite IH. destruct Hall as [|y l' Hy _]; simpl; [done|].
  by rewrite decide_True.
Qed.
End SortFacts.

(** ** The action log *)

Section LogFacts.
Import HistoryStore.
Implicit Types (hs : HistoryStore.t).

Lemma undo_nonempty hs h a :
  history hs = JsArray.push h a →
  undo hs = (h, {| history := h; redoStack := JsArray.push (redoStack hs) a |}).
Proof. intros Heq. unfold undo. by rewrite Heq, pop_push. Qed.

Lemma undo_empty hs : history hs = [] → undo hs = ([], hs).
Proof. intros Heq. unfold undo. by rewrite Heq. Qed.

Lemma redo_empty hs : redoStack hs = [] → redo hs = (history hs, hs).
Proof. intros Heq. unfold redo. by rewrite Heq. Qed.

Lemma redo_nonempty hs r a :
  redoStack hs = JsArray.push r a →
  redo hs = (JsArray.push (history hs) a,
             {| history := JsArray.push (history hs) a; redoStack := r |}).
Proof. intros Heq. unfold redo. by rewrite Heq, pop_push. Qed.

Lemma nonempty_push (h : list DrawingAction) :
  h ≠ [] → ∃ h' a, h = JsArray.push h' a.
Proof.
  destruct h as [|a h'] using rev_ind; [done|]. intros _. by exists h', a.
Qed.

(** C5. On a log whose entries are not empty, [undo()] followed at once by
    [redo()] gives back the entries as they were: [redo] returns them, the
    store holds them, and the redo stack is as before. The entries are
    compared as whole records, so the restored action has the id, the
    timestamp and the position it had. *)
Theorem undo_redo_restores_entries hs :
  history hs ≠ [] →
  fst (redo (snd (undo hs))) = history hs ∧
  snd (redo (snd (undo hs))) = hs.
Proof.
  intros (h & a & Heq)%nonempty_push.
  rewrite (undo_nonempty _ _ _ Heq). simpl.
  erewrite redo_nonempty by reflexivity. simpl.
  rewrite <- Heq. by destruct hs.
Qed.

Lemma undo_redo_restores_entries_witness :
  fst (HistoryStore.redo (snd (HistoryStore.undo Sample.ordered)))
    = HistoryStore.history Sample.ordered ∧
  snd (HistoryStore.redo (snd (HistoryStore.undo Sample.ordered))) = Sample.ordered.
Proof. apply (undo_redo_restores_entries Sample.ordered). vm_compute. discriminate. Defined.

(** C6. [addStroke] and [addErase] leave the redo stack empty, whatever
    it held. So after an [undo] and an append the entries are those the
    [undo] left plus the new action, and [redo()] changes nothing and
    returns these entries: the undone action cannot come back. *)
Theorem append_discards_redo hs uuid now stroke :
  redoStack (snd (addStroke uuid now stroke hs)) = [] ∧
  redoStack (snd (addErase uuid now stroke hs)) = [] ∧
  (let hs1 := snd (addStroke uuid now stroke (snd (undo hs))) in
   history hs1 = JsArray.push (history (snd (undo hs)))
                   (fst (addStroke uuid now stroke (snd (undo hs)))) ∧
   redo hs1 = (history hs1, hs1)) ∧
  (let hs2 := snd (addErase uuid now stroke (snd (undo hs))) in
   history hs2 = JsArray.push (history (snd (undo hs)))
                   (fst (addErase uuid now stroke (snd (undo hs)))) ∧
   redo hs2 = (history hs2, hs2)).
Proof.
  repeat split; try reflexivity; by apply redo_empty.
Qed.

End LogFacts.

(** ** Replay order *)

Section BeforeFacts.
Context {A B : Type}.

Lemma Before_filter (P : A → Prop) `{!∀ x, Decision (P x)} (a b : A) l :
  P a → P b → Before a b l → Before a b (filter P l).
Proof.
  intros Ha Hb (r1 & r2 & r3 & ->).
  exists (filter P r1), (filter P r2), (filter P r3).
  rewrite filter_app, filter_cons_True by done.
  by rewrite filter_app, filter_cons_True by done.
Qed.

Lemma Before_map (f : A → B) (a b : A) l :
  Before a b l → Before (f a) (f b) (map f l).
Proof.
  intros (r1 & r2 & r3 & ->).
  exists (map f r1), (map f r2), (map f r3).
  by rewrite map_app, map_cons, map_app, map_cons.
Qed.

Lemma Before_two (a b : A) : Before a b [a; b].
Proof. by exists [], [], []. Qed.
End BeforeFacts.

Section ReplayFacts.
Import HistoryStore.

Lemma drawStroke_fold (l : list DrawingAction) (c : Client.Canvas) :
  foldl (λ c action,
           Client.drawStroke (action_data action)
             (bool_decide (action_type action = STROKE_ERASE)) c) c l =
  c ++ map (λ a, (action_data a, bool_decide (action_type a = STROKE_ERASE)))
           (filter (λ a, ¬ (length (stroke_points (action_data a)) < 1)%nat) l).
Proof.
  revert c. induction l as [|a l IH]; intros c; simpl.
  - by rewrite app_nil_r.
  - rewrite IH. unfold Client.drawStroke. destruct (decide _) as [Hlt|Hge].
    + by rewrite filter_cons_False by (intros Hn; by apply Hn).
    + rewrite filter_cons_True by done. by rewrite <- app_assoc.
Qed.

(** What [redrawAll] leaves on the canvas: the strokes of [sortedActions]
    that have a point, in that order. *)
Lemma redrawAll_paints (h : list DrawingAction) (c : Client.Canvas) :
  Client.redrawAll h c =
  map (λ a, (action_data a, bool_decide (action_type a = STROKE_ERASE)))
      (filter (λ a, ¬ (length (stroke_points (action_data a)) < 1)%nat)
              (Client.sortedActions h)).
Proof. unfold Client.redrawAll. by rewrite drawStroke_fold. Qed.

(** C1, as the code has it. The rebuilds replay the draw and erase actions
    sorted by timestamp, equal timestamps in log order: of two such
    actions entered [a1] then [a2], [getCurrentState] presents the stroke
    of [a1] first when the timestamp of the stroke of [a2] is not the
    earlier one, and the stroke of [a2] first when it is; [redrawAll]
    does the same by the timestamps of the actions. *)
Theorem replay_orders_by_timestamp (hs : HistoryStore.t) (a1 a2 : DrawingAction) :
  Before a1 a2 (history hs) →
  isStrokeAction a1 = true → isStrokeAction a2 = true →
  (strokeKey (action_data a1) ≤ strokeKey (action_data a2) →
     Before (action_data a1) (action_data a2) (getCurrentState hs)) ∧
  (strokeKey (action_data a2) < strokeKey (action_data a1) →
     Before (action_data a2) (action_data a1) (getCurrentState hs)) ∧
  (Client.actionKey a1 ≤ Client.actionKey a2 →
     Before a1 a2 (Client.sortedActions (getHistory hs))) ∧
  (Client.actionKey a2 < Client.actionKey a1 →
     Before a2 a1 (Client.sortedActions (getHistory hs))).
Proof.
  intros Hb H1 H2.
  pose proof (Before_filter (λ a, isStrokeAction a = true) _ _ _ H1 H2 Hb) as Hf.
  pose proof (Before_map action_data _ _ _ Hf) as Hm.
  unfold getCurrentState, Client.sortedActions, getHistory.
  repeat split; intros Hk.
  - by apply sort_stable.
  - by apply sort_swaps.
  - by apply sort_stable.
  - by apply sort_swaps.
Qed.

Lemma replay_orders_by_timestamp_witness :
  Before Sample.s1 Sample.s3 (getCurrentState Sample.ordered) ∧
  Before Sample.s2 Sample.s1 (getCurrentState Sample.skewed).
Proof.
  split.
  - apply (replay_orders_by_timestamp Sample.ordered
             (mkAction "id-1" STROKE_DRAW "alice" 1000 Sample.s1)
             (mkAction "id-3" STROKE_DRAW "bob" 1001 Sample.s3));
      [apply Before_two | reflexivity | reflexivity | vm_compute; discriminate].
  - apply (replay_orders_by_timestamp Sample.skewed
             (mkAction "id-1" STROKE_DRAW "alice" 1000 Sample.s1)
             (mkAction "id-2" STROKE_DRAW "bob" 1001 Sample.s2));
      [apply Before_two | reflexivity | reflexivity | reflexivity].
Defined.

(** C1 fails as stated: [s1] is appended before [s2], [s2] carries the
    earlier timestamp, and [getCurrentState] presents [s2] first; for
    [redrawAll] the same happens when the action of [s2] is stamped
    earlier than the one of [s1]. *)
Lemma replay_not_in_append_order :
  getHistory Sample.skewed =
    [ mkAction "id-1" STROKE_DRAW "alice" 1000 Sample.s1;
      mkAction "id-2" STROKE_DRAW "bob" 1001 Sample.s2 ] ∧
  getCurrentState Sample.skewed = [Sample.s2; Sample.s1] ∧
  ¬ Before Sample.s1 Sample.s2 (getCurrentState Sample.skewed) ∧
  Client.redrawAll Sample.stepped_back [] = [(Sample.s2, true); (Sample.s1, false)].
Proof.
  repeat split; try reflexivity.
  intros (r1 & r2 & r3 & Heq). vm_compute in Heq.
  destruct r1 as [|x r1]; [|destruct r1 as [|y r1]; [|destruct r1]];
    simplify_eq; destruct r2; simplify_eq.
Qed.

End ReplayFacts.

(** ** The registry *)

Section RegistryFacts.
Import RoomManager.
Implicit Types (rm : RoomManager.t) (socketId roomId name : string).

Lemma letterAt_lt (k : nat) :
  (k < 16)%nat →
  ∃ c, letterAt k = String c EmptyString ∧ In c (String.list_ascii_of_string letters).
Proof.
  intros Hk.
  do 16 (destruct k as [|k];
         [eexists; split; [reflexivity | vm_compute; tauto] |]).
  lia.
Qed.

(** With every draw below 16 the colour is '#' and six letters. *)
Lemma generateRandomColor_shape (rnd : nat → nat) :
  (∀ i, (i < 6)%nat → (rnd i < 16)%nat) →
  ∃ cs, length cs = 6%nat ∧
        Forall (λ c, In c (String.list_ascii_of_string letters)) cs ∧
        generateRandomColor rnd = String "#"%char (String.string_of_list_ascii cs).
Proof.
  intros Hrnd.
  destruct (letterAt_lt (rnd 0%nat)) as (c0 & E0 & I0); [apply Hrnd; lia|].
  destruct (letterAt_lt (rnd 1%nat)) as (c1 & E1 & I1); [apply Hrnd; lia|].
  destruct (letterAt_lt (rnd 2%nat)) as (c2 & E2 & I2); [apply Hrnd; lia|].
  destruct (letterAt_lt (rnd 3%nat)) as (c3 & E3 & I3); [apply Hrnd; lia|].
  destruct (letterAt_lt (rnd 4%nat)) as (c4 & E4 & I4); [apply Hrnd; lia|].
  destruct (letterAt_lt (rnd 5%nat)) as (c5 & E5 & I5); [apply Hrnd; lia|].
  exists [c0; c1; c2; c3; c4; c5]. split; [reflexivity|]. split.
  - repeat (constructor; [assumption|]). constructor.
  - unfold generateRandomColor. cbn [foldl seq].
    rewrite E0, E1, E2, E3, E4, E5. reflexivity.
Qed.

Lemma addUserToRoom_inr socketId roomId rnd rm room :
  getRoom roomId rm = Some room →
  addUserToRoom socketId roomId rnd rm =
    inr (length (heap rm),
         {| rooms := <[roomId :=
                        {| room_id := room_id room; room_name := room_name room;
                           room_users := JsMap.set socketId (length (heap rm))
                                           (room_users room);
                           room_history := room_history room;
                           room_historyIndex := room_historyIndex room |}]>
                       (rooms rm);
            userToRoom := <[socketId := roomId]> (userToRoom rm);
            socketToUser := <[socketId := length (heap rm)]> (socketToUser rm);
            heap := heap rm ++
                    [{| user_id := socketId;
                        user_color := generateRandomColor rnd;
                        user_name := "User-" +:+ String.substring 0 5 socketId |}] |}).
Proof. intros Hroom. unfold addUserToRoom. by rewrite Hroom. Qed.

Lemma addUserToRoom_inl socketId roomId rnd rm :
  getRoom roomId rm = None →
  addUserToRoom socketId roomId rnd rm = inl ("Room " +:+ roomId +:+ " not found").
Proof. intros Hroom. unfold addUserToRoom. by rewrite Hroom. Qed.

(** C9. Joined into a room that exists, with [Math.random()] in its
    range, [addUserToRoom] returns a user whose id is the socket id, whose
    name is 'User-' and the first five characters of the socket id, and
    whose colour is '#' and six characters of '0123456789ABCDEF'. *)
Theorem addUserToRoom_user socketId roomId rnd rm room :
  getRoom roomId rm = Some room →
  (∀ i, (i < 6)%nat → (rnd i < 16)%nat) →
  ∃ ref rm' user,
    addUserToRoom socketId roomId rnd rm = inr (ref, rm') ∧
    heap rm' !! ref = Some user ∧
    user_id user = socketId ∧
    user_name user = "User-" +:+ String.substring 0 5 socketId ∧
    String.length (user_color user) = 7%nat ∧
    ∃ cs, length cs = 6%nat ∧
          Forall (λ c, In c (String.list_ascii_of_string "0123456789ABCDEF")) cs ∧
          user_color user = String "#"%char (String.string_of_list_ascii cs).
Proof.
  intros Hroom Hrnd.
  destruct (generateRandomColor_shape rnd Hrnd) as (cs & Hlen & Hall & Hcol).
  eexists _, _, _. split; [by apply addUserToRoom_inr|].
  simpl. split; [by rewrite lookup_app_r, Nat.sub_diag|].
  repeat split; [|by exists cs].
  rewrite Hcol.
  destruct cs as [|? [|? [|? [|? [|? [|? [|]]]]]]]; by simplify_eq/=.
Qed.

Lemma addUserToRoom_user_witness :
  ∃ ref rm' user,
    addUserToRoom "q7Xk2pLm9ZtAbCdEfGhI" "main" Sample.rndCycle RoomManager.new
      = inr (ref, rm') ∧
    heap rm' !! ref = Some user ∧
    user_id user = "q7Xk2pLm9ZtAbCdEfGhI" ∧
    user_name user = "User-" +:+ String.substring 0 5 "q7Xk2pLm9ZtAbCdEfGhI" ∧
    String.length (user_color user) = 7%nat ∧
    ∃ cs, length cs = 6%nat ∧
          Forall (λ c, In c (String.list_ascii_of_string "0123456789ABCDEF")) cs ∧
          user_color user = String "#"%char (String.string_of_list_ascii cs).
Proof.
  apply (addUserToRoom_user "q7Xk2pLm9ZtAbCdEfGhI" "main" Sample.rndCycle
           RoomManager.new
           (mkRoom "main" "Main Canvas" [] [] 0)).
  - reflexivity.
  - intros i Hi. unfold Sample.rndCycle. apply Nat.mod_upper_bound. lia.
Defined.

Example addUserToRoom_sample :
  (λ r, match r with
        | inr (ref, rm') => heap rm' !! ref
        | inl _ => None
        end)
    (addUserToRoom "q7Xk2pLm9ZtAbCdEfGhI" "main" Sample.rndCycle RoomManager.new)
  = Some (mkUser "q7Xk2pLm9ZtAbCdEfGhI" "#3A18F6" "User-q7Xk2").
Proof. reflexivity. Qed.

(** C10. [updateUserName] leaves the registry's three maps as they are and
    with them every room's member map and history. When the socket id has a
    registered user, the heap changes at that user's object alone, which
    keeps its id and colour and takes the new name; when the socket id is
    unknown, the registry is unchanged. *)
Theorem updateUserName_frame socketId name rm :
  rooms (updateUserName socketId name rm) = rooms rm ∧
  userToRoom (updateUserName socketId name rm) = userToRoom rm ∧
  socketToUser (updateUserName socketId name rm) = socketToUser rm ∧
  match socketToUser rm !! socketId with
  | Some ref =>
      (∀ r, r ≠ ref →
         heap (updateUserName socketId name rm) !! r = heap rm !! r) ∧
      (∀ user, heap rm !! ref = Some user →
         heap (updateUserName socketId name rm) !! ref =
           Some {| user_id := user_id user; user_color := user_color user;
                   user_name := name |}) ∧
      length (heap (updateUserName socketId name rm)) = length (heap rm)
  | None => updateUserName socketId name rm = rm
  end.
Proof.
  unfold updateUserName.
  destruct (socketToUser rm !! socketId) as [ref|]; simpl; [|done].
  repeat split.
  - intros r Hr. by rewrite list_lookup_alter_ne by done.
  - intros user Hu. by rewrite list_lookup_alter_eq, Hu.
  - by rewrite length_alter.
Qed.

(** The renamed object is the one the room's member map refers to, so the
    roster shows the new name. *)
Example updateUserName_roster :
  match addUserToRoom "q7Xk2pLm9ZtAbCdEfGhI" "main" Sample.rnd0 RoomManager.new with
  | inr (_, rm) =>
      getUsersInRoom "main" (updateUserName "q7Xk2pLm9ZtAbCdEfGhI" "Zed" rm)
  | inl _ => []
  end = [mkUser "q7Xk2pLm9ZtAbCdEfGhI" "#000000" "Zed"].
Proof. reflexivity. Qed.

End RegistryFacts.

(** ** The logs of the rooms *)

Section StoreFacts.
Import Server.
Implicit Types (m : gmap string HistoryStore.t) (r : string) (op : LogOp).

Lemma snapshot_lookup r m :
  snapshot r m = HistoryStore.history (default HistoryStore.new (m !! r)).
Proof. unfold snapshot, getHistoryStore. by destruct (m !! r). Qed.

Lemma onStore_lookup r op m :
  onStore r op m !! r = Some (applyLogOp op (default HistoryStore.new (m !! r))).
Proof.
  unfold onStore, getHistoryStore.
  destruct (m !! r); simpl; by rewrite lookup_insert_eq.
Qed.

Lemma onStore_lookup_ne r r' op m : r ≠ r' → onStore r op m !! r' = m !! r'.
Proof.
  intros Hne. unfold onStore, getHistoryStore.
  destruct (m !! r); simpl; by rewrite !lookup_insert_ne by done.
Qed.

Lemma snapshot_onStore r op m :
  snapshot r (onStore r op m)
    = HistoryStore.history (applyLogOp op (default HistoryStore.new (m !! r))).
Proof. by rewrite snapshot_lookup, onStore_lookup. Qed.

Lemma snapshot_ext r m1 m2 : m1 !! r = m2 !! r → snapshot r m1 = snapshot r m2.
Proof. intros H. by rewrite !snapshot_lookup, H. Qed.

(** What the log of room [r] becomes depends on the operations scoped to
    [r] and on nothing else. *)
Lemma runLog_noninterference r (ops : list (string * LogOp)) m1 m2 :
  m1 !! r = m2 !! r →
  runLog ops m1 !! r = runLog (filter (λ o, o.1 = r) ops) m2 !! r.
Proof.
  unfold runLog. revert m1 m2.
  induction ops as [|[r' op] ops IH]; intros m1 m2 Heq; [done|].
  cbn [foldl fst snd].
  destruct (decide (r' = r)) as [->|Hne].
  - rewrite filter_cons_True by done. cbn [foldl fst snd]. apply IH.
    by rewrite !onStore_lookup, Heq.
  - rewrite filter_cons_False by done. apply IH.
    by rewrite onStore_lookup_ne.
Qed.

Lemma append_length op (hs : HistoryStore.t) :
  isAppend op = true →
  length (HistoryStore.history (applyLogOp op hs))
    = S (length (HistoryStore.history hs)).
Proof.
  destruct op; try done; intros _; simpl; unfold JsArray.push;
    rewrite length_app; simpl; lia.
Qed.

Lemma runLog_append_length r (ops : list (string * LogOp)) m :
  Forall (λ o, isAppend o.2 = true) ops →
  length (snapshot r (runLog ops m))
    = (length (snapshot r m) + length (filter (λ o, o.1 = r) ops))%nat.
Proof.
  unfold runLog. intros Hall. revert m.
  induction Hall as [|[r' op] ops Hop Hall IH]; intros m.
  { rewrite filter_nil. simpl. lia. }
  cbn [foldl fst snd] in *.
  rewrite IH. destruct (decide (r' = r)) as [->|Hne].
  - rewrite filter_cons_True by done.
    rewrite snapshot_onStore, append_length by done.
    rewrite snapshot_lookup. simpl. lia.
  - rewrite filter_cons_False by done.
    by rewrite (snapshot_ext r _ m) by (by apply onStore_lookup_ne).
Qed.

(** C7. From logs of [A] and [B] that are empty, after any interleaving
    of appends the snapshot of [A] has as many entries as there were
    appends to [A] and the snapshot of [B] as many as there were appends
    to [B]. An operation on one room leaves the store of the other as it
    is, and what any operation scoped to a room does after the
    interleaving is what it does after that room's own appends alone. *)
Theorem session_isolation (A B : string) (ops : list (string * LogOp)) m0 :
  A ≠ B →
  snapshot A m0 = [] → snapshot B m0 = [] →
  Forall (λ o, isAppend o.2 = true) ops →
  length (snapshot A (runLog ops m0)) = length (filter (λ o, o.1 = A) ops) ∧
  length (snapshot B (runLog ops m0)) = length (filter (λ o, o.1 = B) ops) ∧
  (∀ op m, onStore A op m !! B = m !! B ∧ onStore B op m !! A = m !! A) ∧
  (∀ op, onStore A op (runLog ops m0) !! A
         = onStore A op (runLog (filter (λ o, o.1 = A) ops) m0) !! A) ∧
  (∀ op, onStore B op (runLog ops m0) !! B
         = onStore B op (runLog (filter (λ o, o.1 = B) ops) m0) !! B) ∧
  snapshot A (runLog ops m0) = snapshot A (runLog (filter (λ o, o.1 = A) ops) m0) ∧
  snapshot B (runLog ops m0) = snapshot B (runLog (filter (λ o, o.1 = B) ops) m0).
Proof.
  intros Hne HA HB Happ.
  split; [by rewrite runLog_append_length, HA|].
  split; [by rewrite runLog_append_length, HB|].
  split; [intros op m; split; by apply onStore_lookup_ne|].
  split.
  { intros op. rewrite !onStore_lookup.
    by rewrite (runLog_noninterference A ops m0 m0). }
  split.
  { intros op. rewrite !onStore_lookup.
    by rewrite (runLog_noninterference B ops m0 m0). }
  split; by apply snapshot_ext, runLog_noninterference.
Qed.

Lemma session_isolation_witness :
  length (snapshot "main" (runLog Sample.interleaved (roomHistories init))) = 2%nat ∧
  length (snapshot "room2" (runLog Sample.interleaved (roomHistories init))) = 1%nat.
Proof.
  destruct (session_isolation "main" "room2" Sample.interleaved (roomHistories init))
    as (HA & HB & _).
  - discriminate.
  - reflexivity.
  - reflexivity.
  - repeat constructor.
  - split; [exact HA | exact HB].
Defined.

(** A structural handler of a joined connection does to the logs what its
    store method does to the store of the connection's room. *)
Lemma handle_log sid req st cur op :
  joinedRoom sid st = Some cur → logOpOf req = Some op →
  roomHistories (fst (handle sid req st)) = onStore cur op (roomHistories st).
Proof.
  intros Hj Hop.
  destruct req; simplify_eq/=;
    unfold draw_finish, on_erase, undo, redo, clear_canvas, onStore;
    rewrite Hj; destruct (getHistoryStore cur (roomHistories st)) as [hs m];
    simpl; try done.
  - by destruct (HistoryStore.undo hs).
  - by destruct (HistoryStore.redo hs).
Qed.

End StoreFacts.

(** ** The gateway *)

Section GatewayFacts.
Import Server.
Implicit Types (st : Server.t) (sid cur roomId : string).

(** C8, as the code has it. A structural request from a connection that
    is joined to no room is dropped without a word: the handler returns at
    its guard, the whole state, and with it every log and redo stack, is
    as before, and nothing is emitted, neither an error nor an
    acknowledgement. *)
Theorem unjoined_structural_ignored sid (req : Request) st :
  structural req = true →
  joinedRoom sid st = None →
  handle sid req st = (st, []).
Proof.
  intros Hs Hj.
  destruct req; try discriminate Hs; simpl;
    unfold draw_finish, on_erase, undo, redo, clear_canvas; by rewrite Hj.
Qed.

Lemma unjoined_structural_ignored_witness :
  handle "s9" (DrawFinish Sample.s1 true "id-1" 1000) Sample.two_joined
    = (Sample.two_joined, []).
Proof.
  apply (unjoined_structural_ignored "s9"
           (DrawFinish Sample.s1 true "id-1" 1000) Sample.two_joined);
    reflexivity.
Defined.

(** C8 fails as stated: the caller of a structural request made while not
    joined is sent no error, for each of the five requests. *)
Lemma unjoined_structural_no_error :
  Forall (λ req,
            structural req = true ∧
            ¬ ∃ e, e ∈ snd (handle "s9" req Server.init) ∧
                   to e = "s9" ∧ isError e = true)
    [ DrawFinish Sample.s1 true "id-1" 1000;
      Erase Sample.s1 true "id-1" 1000;
      Undo true; Redo true; ClearCanvas true ].
Proof.
  repeat constructor; intros (e & He & _); by apply elem_of_nil in He.
Qed.

Lemma elem_of_io_to s room ev ad :
  s ∈ socketsIn room ad →
  {| to := s; volatile := false; event := ev |} ∈ io_to room ev ad.
Proof. intros Hs. unfold io_to. apply list_elem_of_fmap. by exists s. Qed.

Lemma elem_of_broadcast_to s sid room vol ev ad :
  {| to := s; volatile := vol; event := ev |} ∈ broadcast_to sid room vol ev ad
  ↔ s ∈ socketsIn room ad ∧ s ≠ sid.
Proof.
  unfold broadcast_to. rewrite list_elem_of_fmap. split.
  - intros (s' & [= ->] & Hin). by apply list_elem_of_filter in Hin as [? ?].
  - intros [Hin Hne]. exists s. split; [done|]. by apply list_elem_of_filter.
Qed.

Lemma broadcast_to_receivers e sid room vol ev ad :
  e ∈ broadcast_to sid room vol ev ad →
  to e ∈ socketsIn room ad ∧ to e ≠ sid ∧ event e = ev.
Proof.
  unfold broadcast_to. rewrite list_elem_of_fmap.
  intros (s & -> & Hin). apply list_elem_of_filter in Hin as [? ?]. done.
Qed.

Lemma ack_receiver e has_ack sid ev :
  e ∈ ack has_ack sid ev → to e = sid ∧ event e = ev.
Proof.
  unfold ack, socket_emit. destruct has_ack.
  - by intros ->%list_elem_of_singleton.
  - by intros ?%elem_of_nil.
Qed.

(** C3, as the code has it. From a joined connection, [draw_finish]
    appends the stroke to the log of the connection's room and sends the
    acknowledgement, when one was asked for, and nothing else: no other
    member is sent anything. [erase] appends the stroke as well and sends
    it to every socket of the room but the originator. *)
Theorem finish_stores_erase_echoes sid (data : Stroke) has_ack uuid now st cur :
  joinedRoom sid st = Some cur →
  (snapshot cur (roomHistories (fst (draw_finish sid data has_ack uuid now st)))
     = snapshot cur (roomHistories st)
         ++ [mkAction uuid STROKE_DRAW (stroke_userId data) now data] ∧
   snd (draw_finish sid data has_ack uuid now st) = ack has_ack sid callback_ok ∧
   ∀ e, e ∈ snd (draw_finish sid data has_ack uuid now st) →
        to e = sid ∧ event e = callback_ok) ∧
  (snapshot cur (roomHistories (fst (on_erase sid data has_ack uuid now st)))
     = snapshot cur (roomHistories st)
         ++ [mkAction uuid STROKE_ERASE (stroke_userId data) now data] ∧
   (∀ s, s ∈ socketsIn cur (adapter st) → s ≠ sid →
         {| to := s; volatile := false; event := erase data |}
           ∈ snd (on_erase sid data has_ack uuid now st)) ∧
   ∀ e, e ∈ snd (on_erase sid data has_ack uuid now st) →
        event e = erase data →
        to e ≠ sid ∧ to e ∈ socketsIn cur (adapter st)).
Proof.
  intros Hj. split.
  - pose proof (handle_log sid (DrawFinish data has_ack uuid now) st cur _ Hj eq_refl)
      as Hlog. simpl in Hlog.
    split; [by rewrite Hlog, snapshot_onStore, snapshot_lookup|].
    unfold draw_finish. rewrite Hj.
    destruct (getHistoryStore cur (roomHistories st)) as [hs m]. simpl.
    split; [done|]. intros e He. by apply ack_receiver in He.
  - pose proof (handle_log sid (Erase data has_ack uuid now) st cur _ Hj eq_refl)
      as Hlog. simpl in Hlog.
    split; [by rewrite Hlog, snapshot_onStore, snapshot_lookup|].
    unfold on_erase. rewrite Hj.
    destruct (getHistoryStore cur (roomHistories st)) as [hs m]. simpl.
    split.
    + intros s Hs Hne. apply elem_of_app. left.
      by apply elem_of_broadcast_to.
    + intros e [He|He]%elem_of_app Hev.
      * by apply broadcast_to_receivers in He as (? & ? & _).
      * apply ack_receiver in He as [_ He]. congruence.
Qed.

Lemma finish_stores_erase_echoes_witness :
  snapshot "main"
    (roomHistories (fst (draw_finish "s1" Sample.s1 true "id-1" 1000 Sample.two_joined)))
    = [mkAction "id-1" STROKE_DRAW "alice" 1000 Sample.s1] ∧
  {| to := "s2"; volatile := false; event := erase Sample.s1 |}
    ∈ snd (on_erase "s1" Sample.s1 true "id-1" 1000 Sample.two_joined).
Proof.
  destruct (finish_stores_erase_echoes "s1" Sample.s1 true "id-1" 1000
              Sample.two_joined "main") as [(Hlog & _) (_ & Hecho & _)].
  - reflexivity.
  - split; [exact Hlog|]. apply Hecho; [vm_compute|discriminate].
    apply list_elem_of_In. right. left. reflexivity.
Defined.

(** C3 fails as stated: with [s1] and [s2] joined to 'main', the
    [draw_finish] of [s1] is stored and acknowledged, and [s2] is sent
    nothing. *)
Lemma finish_not_delivered :
  joinedRoom "s2" Sample.two_joined = Some "main" ∧
  socketsIn "main" (adapter Sample.two_joined) = ["s1"; "s2"] ∧
  snd (draw_finish "s1" Sample.s1 true "id-1" 1000 Sample.two_joined)
    = [{| to := "s1"; volatile := false; event := callback_ok |}] ∧
  ¬ ∃ e, e ∈ snd (draw_finish "s1" Sample.s1 true "id-1" 1000 Sample.two_joined) ∧
         to e = "s2".
Proof.
  repeat split; try reflexivity.
  intros (e & He & Hto). vm_compute in He.
  apply list_elem_of_singleton in He. by subst e.
Qed.

End GatewayFacts.

(** ** Joining *)

Section JoinFacts.
Import Server.
Implicit Types (st : Server.t) (sid cur roomId : string).

Lemma JsMap_set_values {V} k (v : V) (m : list (string * V)) :
  v ∈ JsMap.values (JsMap.set k v m).
Proof.
  induction m as [|[k' v'] m IH]; simpl.
  - apply list_elem_of_here.
  - destruct (decide (k' = k)); simpl;
      [apply list_elem_of_here | by apply list_elem_of_further].
Qed.

Lemma JsMap_set_keys {V} k (v : V) (m : list (string * V)) :
  k ∈ JsMap.keys (JsMap.set k v m).
Proof.
  induction m as [|[k' v'] m IH]; simpl.
  - apply list_elem_of_here.
  - destruct (decide (k' = k)); simpl;
      [apply list_elem_of_here | by apply list_elem_of_further].
Qed.

Lemma socket_join_in sid room ad : sid ∈ socketsIn room (socket_join sid room ad).
Proof.
  unfold socket_join. case_bool_decide as Hin; [done|].
  unfold socketsIn at 1. rewrite lookup_insert_eq. simpl.
  apply elem_of_app. right. apply list_elem_of_here.
Qed.

(** The first block of [join_room] only sends rosters. *)
Lemma leavePrevious_out sid st e :
  e ∈ snd (leavePrevious sid st) → ∃ users, event e = users_update users.
Proof.
  unfold leavePrevious.
  destruct (joinedRoom sid st) as [cur|]; simpl; [|by intros ?%elem_of_nil].
  destruct (RoomManager.getRoomIdForUser sid (roomManager st)) as [prev|];
    simpl; [|by intros ?%elem_of_nil].
  destruct (truthy prev); simpl; [|by intros ?%elem_of_nil].
  unfold io_to. rewrite list_elem_of_fmap. intros (s & -> & _). by eexists.
Qed.

(** C2, as the code has it. A join to a room that the registry has
    succeeds: the member is created and registered, and the caller is
    sent the room's full log and then the roster after the join, which
    lists the member; nothing sent is an error. If the room has no
    member yet the roster is the new member alone, and if its store is
    absent or new the log sent is empty. A join to a room that the registry does
    not have registers nothing, creates nothing, and answers the caller's
    callback with the error 'Room <id> not found'. *)
Theorem join_room_outcome sid (roomIdArg : option string) has_cb rnd st :
  let roomId := default "main" roomIdArg in
  let st' := fst (join_room sid roomIdArg has_cb rnd st) in
  let out := snd (join_room sid roomIdArg has_cb rnd st) in
  match RoomManager.getRoom roomId (roomManager st) with
  | Some room =>
      ∃ ref user,
        RoomManager.addUserToRoom sid roomId rnd (roomManager st)
          = inr (ref, roomManager st') ∧
        RoomManager.heap (roomManager st') !! ref = Some user ∧
        user_id user = sid ∧
        RoomManager.getUser sid (roomManager st') = Some user ∧
        sid ∈ RoomManager.members roomId (roomManager st') ∧
        RoomManager.getRoomIdForUser sid (roomManager st') = Some roomId ∧
        currentRoomId st' !! sid = Some roomId ∧
        sid ∈ socketsIn roomId (adapter st') ∧
        {| to := sid; volatile := false;
           event := history_sync (snapshot roomId (roomHistories st)) |} ∈ out ∧
        {| to := sid; volatile := false;
           event := users_update
                      (RoomManager.getUsersInRoom roomId (roomManager st')) |} ∈ out ∧
        user ∈ RoomManager.getUsersInRoom roomId (roomManager st') ∧
        (∀ e, e ∈ out → isError e = false) ∧
        (RoomManager.room_users room = [] →
           RoomManager.getUsersInRoom roomId (roomManager st') = [user]) ∧
        (roomHistories st !! roomId = None ∨
         roomHistories st !! roomId = Some HistoryStore.new →
           snapshot roomId (roomHistories st) = [])
  | None =>
      roomManager st' = roomManager st ∧
      roomHistories st' = roomHistories st ∧
      currentRoomId st' = currentRoomId st ∧
      (has_cb = true →
         {| to := sid; volatile := false;
            event := callback_error ("Room " +:+ roomId +:+ " not found") |} ∈ out) ∧
      (∀ e, e ∈ out → to e = sid → ∀ h, event e ≠ history_sync h)
  end.
Proof.
  intros roomId st' out. subst st' out. unfold join_room. fold roomId.
  pose proof (leavePrevious_out sid st) as Hout1.
  destruct (leavePrevious sid st) as [ad1 out1]. simpl in Hout1.
  destruct (RoomManager.getRoom roomId (roomManager st)) as [room|] eqn:Hroom.
  - rewrite (addUserToRoom_inr _ _ _ _ _ Hroom).
    pose proof (socket_join_in sid roomId ad1) as Hjoined.
    unfold snapshot.
    destruct (getHistoryStore roomId (roomHistories st)) as [hs m] eqn:Hst.
    cbn [fst snd roomManager adapter currentRoomId].
    eexists _, _.
    split; [reflexivity|].
    split; [cbn; by rewrite lookup_app_r, Nat.sub_diag|].
    split; [reflexivity|].
    split.
    { unfold RoomManager.getUser. cbn. rewrite lookup_insert_eq. cbn.
      by rewrite lookup_app_r, Nat.sub_diag. }
    split.
    { unfold RoomManager.members, RoomManager.getRoom. cbn.
      rewrite lookup_insert_eq. apply JsMap_set_keys. }
    split; [unfold RoomManager.getRoomIdForUser; cbn; by rewrite lookup_insert_eq|].
    split; [by rewrite lookup_insert_eq|].
    split; [done|].
    split.
    { apply elem_of_app. right. apply elem_of_app. left.
      apply list_elem_of_singleton. reflexivity. }
    split.
    { apply elem_of_app. right. apply elem_of_app. right.
      apply elem_of_app. left. by apply elem_of_io_to. }
    split.
    { unfold RoomManager.getUsersInRoom, RoomManager.getRoom. cbn.
      rewrite lookup_insert_eq. apply list_elem_of_omap.
      exists (length (RoomManager.heap (roomManager st))). split.
      - apply JsMap_set_values.
      - by rewrite lookup_app_r, Nat.sub_diag. }
    split.
    { intros e He. rewrite !elem_of_app in He.
      destruct He as [He|[He|[He|He]]].
      - apply Hout1 in He as [users He]. unfold isError. by rewrite He.
      - apply list_elem_of_singleton in He. by subst e.
      - unfold io_to in He. apply list_elem_of_fmap in He as (s & -> & _). done.
      - apply ack_receiver in He as [_ He]. unfold isError. by rewrite He. }
    split.
    { intros Hempty.
      unfold RoomManager.getUsersInRoom, RoomManager.getRoom. cbn.
      rewrite lookup_insert_eq, Hempty. cbn.
      by rewrite lookup_app_r, Nat.sub_diag. }
    unfold getHistoryStore in Hst.
    intros [Hnone|Hnew]; [rewrite Hnone in Hst | rewrite Hnew in Hst];
      by injection Hst as <- _.
  - rewrite (addUserToRoom_inl _ _ _ _ Hroom). cbn.
    repeat split; try done.
    + intros ->. apply elem_of_app. right. apply list_elem_of_singleton. done.
    + intros e He _ h Hev. apply elem_of_app in He as [He|He].
      * apply Hout1 in He as [users He]. congruence.
      * apply ack_receiver in He as [_ He]. congruence.
Qed.

Lemma join_room_outcome_witness :
  ∃ user,
    user_id user = "s1" ∧
    RoomManager.getUsersInRoom "main"
      (roomManager (fst (join_room "s1" None true Sample.rnd0 Server.init))) = [user] ∧
    snapshot "main" (roomHistories Server.init) = [].
Proof.
  pose proof (join_room_outcome "s1" None true Sample.rnd0 Server.init) as H.
  cbv zeta in H.
  change (RoomManager.getRoom (default "main" None) (roomManager Server.init))
    with (Some (RoomManager.mkRoom "main" "Main Canvas" [] [] 0)) in H.
  cbv iota in H.
  destruct H as (ref & user & _ & _ & Hid & _ & _ & _ & _ & _ & _ & _ & _ & _
                 & Hnew & Hlog).
  exists user. split; [exact Hid|]. split.
  - apply Hnew. reflexivity.
  - apply Hlog. right. reflexivity.
Defined.

(** The first join of the server's one room: an empty log and a roster of
    one, to the caller alone. *)
Example first_join :
  snd (join_room "q7Xk2pLm9ZtAbCdEfGhI" None true Sample.rndCycle Server.init) =
  let user := mkUser "q7Xk2pLm9ZtAbCdEfGhI" "#3A18F6" "User-q7Xk2" in
  [ {| to := "q7Xk2pLm9ZtAbCdEfGhI"; volatile := false; event := history_sync [] |};
    {| to := "q7Xk2pLm9ZtAbCdEfGhI"; volatile := false; event := users_update [user] |};
    {| to := "q7Xk2pLm9ZtAbCdEfGhI"; volatile := false; event := callback_ok |} ].
Proof. reflexivity. Qed.

(** C2 fails as stated: on the server as it starts, a join to 'room2'
    is answered with the error 'Room room2 not found'; no room and no
    member come of it. *)
Lemma join_unknown_room_fails :
  join_room "s1" (Some "room2") true Sample.rnd0 Server.init
    = (Server.init,
       [{| to := "s1"; volatile := false;
           event := callback_error "Room room2 not found" |}]) ∧
  RoomManager.addUserToRoom "s1" "room2" Sample.rnd0 RoomManager.new
    = inl "Room room2 not found" ∧
  RoomManager.getRoom "room2"
    (roomManager (fst (join_room "s1" (Some "room2") true Sample.rnd0 Server.init)))
    = None.
Proof. repeat split; reflexivity. Qed.

End JoinFacts.

(** ** Changing rooms *)

Section RejoinFacts.
Import Server.

(** [addUserToRoom] writes the member map of the room joined and of no
    other room. *)
Lemma addUserToRoom_other_rooms sid roomId roomId' rnd rm ref rm' :
  RoomManager.addUserToRoom sid roomId rnd rm = inr (ref, rm') →
  roomId' ≠ roomId →
  RoomManager.members roomId' rm' = RoomManager.members roomId' rm.
Proof.
  unfold RoomManager.addUserToRoom, RoomManager.members, RoomManager.getRoom.
  destruct (RoomManager.rooms rm !! roomId) as [room|]; [|done].
  intros [= <- <-] Hne. cbn. by rewrite lookup_insert_ne.
Qed.

(** A joined connection that joins a second room of the registry stays in
    the member map of the first: [join_room] leaves the socket.io room and
    never calls [removeUser]. *)
Lemma join_room_keeps_membership sid roomId prev has_cb rnd st room :
  RoomManager.getRoom roomId (roomManager st) = Some room →
  prev ≠ roomId →
  sid ∈ RoomManager.members prev (roomManager st) →
  sid ∈ RoomManager.members prev
          (roomManager (fst (join_room sid (Some roomId) has_cb rnd st))) ∧
  sid ∈ RoomManager.members roomId
          (roomManager (fst (join_room sid (Some roomId) has_cb rnd st))).
Proof.
  intros Hroom Hne Hin. unfold join_room.
  change (default "main" (Some roomId)) with roomId. cbv zeta.
  destruct (leavePrevious sid st) as [ad1 out1].
  pose proof (addUserToRoom_inr sid roomId rnd _ _ Hroom) as Hadd.
  rewrite Hadd.
  destruct (getHistoryStore roomId (roomHistories st)) as [hs m].
  cbn [fst roomManager]. split.
  - by rewrite (addUserToRoom_other_rooms _ _ _ _ _ _ _ Hadd Hne).
  - unfold RoomManager.members, RoomManager.getRoom. cbn.
    rewrite lookup_insert_eq. apply JsMap_set_keys.
Qed.

(** On a registry with a second room, which only a call of [createRoom]
    after the constructor gives and the server never makes, a connection
    that joins 'main' and then 'room2' is listed in the member maps of
    both: the socket has left the socket.io room 'main', the registry has
    the connection in 'room2', and the roster of 'main' still shows it. *)
Example rejoin_dual_membership :
  let st := fst (run [("s1", JoinRoom (Some "main") true Sample.rnd0);
                      ("s1", JoinRoom (Some "room2") true Sample.rndCycle)]
                     Sample.two_rooms) in
  RoomManager.members "main" (roomManager st) = ["s1"] ∧
  RoomManager.members "room2" (roomManager st) = ["s1"] ∧
  RoomManager.getUsersInRoom "main" (roomManager st)
    = [mkUser "s1" "#000000" "User-s1"] ∧
  RoomManager.getUsersInRoom "room2" (roomManager st)
    = [mkUser "s1" "#3A18F6" "User-s1"] ∧
  RoomManager.getRoomIdForUser "s1" (roomManager st) = Some "room2" ∧
  socketsIn "main" (adapter st) = [] ∧
  socketsIn "room2" (adapter st) = ["s1"].
Proof. repeat split; reflexivity. Qed.

(** The listener of [disconnect] does call [removeUser]: the connection
    is then gone from the room the registry has for it, and from that one
    only. *)
Example disconnect_removes_one :
  let st := fst (run [("s1", JoinRoom (Some "main") true Sample.rnd0);
                      ("s1", JoinRoom (Some "room2") true Sample.rndCycle);
                      ("s1", Disconnect)]
                     Sample.two_rooms) in
  RoomManager.members "main" (roomManager st) = ["s1"] ∧
  RoomManager.members "room2" (roomManager st) = [].
Proof. split; reflexivity. Qed.

End RejoinFacts.

(** ** Traces *)

Section TraceFacts.
Import Server.
Implicit Types (st : Server.t) (sid : string) (req : Request)
  (trace : list (string * Request)).

Lemma run_cons_fst sid req trace st :
  fst (run ((sid, req) :: trace) st) = fst (run trace (fst (handle sid req st))).
Proof.
  cbn [run]. destruct (handle sid req st) as [st1 out1]. cbn [fst].
  by destruct (run trace st1) as [st2 out2].
Qed.

Lemma join_room_currentRoomId_other sid sid' roomIdArg has_cb rnd st :
  sid' ≠ sid →
  currentRoomId (fst (join_room sid roomIdArg has_cb rnd st)) !! sid'
    = currentRoomId st !! sid'.
Proof.
  intros Hne. unfold join_room.
  destruct (leavePrevious sid st) as [ad1 out1].
  destruct (RoomManager.addUserToRoom _ _ _ _) as [msg|[ref rm]]; simpl; [done|].
  destruct (getHistoryStore _ _) as [hs m]. simpl.
  by rewrite lookup_insert_ne.
Qed.

(** No handler but [join_room] assigns [currentRoomId]. *)
Lemma handle_currentRoomId sid req st :
  (∀ roomId has_cb rnd, req ≠ JoinRoom roomId has_cb rnd) →
  currentRoomId (fst (handle sid req st)) = currentRoomId st.
Proof.
  intros Hreq. destruct req; cbn [handle].
  - by edestruct Hreq.
  - unfold on_draw_line. by destruct (joinedRoom sid st).
  - unfold draw_finish. destruct (joinedRoom sid st); [|done].
    by destruct (getHistoryStore _ _).
  - unfold on_erase. destruct (joinedRoom sid st); [|done].
    by destruct (getHistoryStore _ _).
  - unfold cursor_move. destruct (joinedRoom sid st); [|done].
    by destruct (RoomManager.getUser sid (roomManager st)).
  - unfold undo. destruct (joinedRoom sid st); [|done].
    destruct (getHistoryStore _ _) as [hs m]. by destruct (HistoryStore.undo hs).
  - unfold redo. destruct (joinedRoom sid st); [|done].
    destruct (getHistoryStore _ _) as [hs m]. by destruct (HistoryStore.redo hs).
  - unfold clear_canvas. destruct (joinedRoom sid st); [|done].
    by destruct (getHistoryStore _ _).
  - unfold disconnect. by destruct (joinedRoom sid st).
Qed.

Lemma handle_unjoined_state sid req st :
  structural req = true → joinedRoom sid st = None →
  fst (handle sid req st) = st.
Proof.
  intros Hs Hj.
  destruct req; try discriminate Hs; simpl;
    unfold draw_finish, on_erase, undo, redo, clear_canvas; by rewrite Hj.
Qed.

Lemma omap_scopedOp st1 st2 trace :
  currentRoomId st1 = currentRoomId st2 →
  omap (scopedOp st1) trace = omap (scopedOp st2) trace.
Proof.
  intros Hcur. induction trace as [|x trace IH]; [done|].
  cbn [omap list_omap]. rewrite IH.
  unfold scopedOp, joinedRoom. by rewrite Hcur.
Qed.

(** A trace of structural requests does to the logs what the sequence of
    its room-scoped store methods does. *)
Lemma run_structural_log trace st :
  Forall (λ x, structural x.2 = true) trace →
  roomHistories (fst (run trace st))
    = runLog (omap (scopedOp st) trace) (roomHistories st).
Proof.
  intros Hall. revert st.
  induction Hall as [|[sid req] trace Hreq Hall IH]; intros st; [done|].
  rewrite run_cons_fst, IH.
  rewrite (omap_scopedOp _ st).
  2:{ apply handle_currentRoomId. intros ? ? ? ->. discriminate Hreq. }
  cbn [omap list_omap]. unfold scopedOp at 2. cbn [fst snd].
  destruct (joinedRoom sid st) as [cur|] eqn:Hj.
  - destruct (logOpOf req) as [op|] eqn:Hop.
    + by rewrite (handle_log sid req st cur op).
    + by destruct req.
  - by rewrite handle_unjoined_state.
Qed.

(** No handler adds a room to the registry or takes one away. *)
Lemma handle_rooms_dom sid req st :
  dom (RoomManager.rooms (roomManager (fst (handle sid req st))))
    = dom (RoomManager.rooms (roomManager st)).
Proof.
  destruct req; cbn [handle].
  - unfold join_room. destruct (leavePrevious sid st) as [ad1 out1].
    unfold RoomManager.addUserToRoom, RoomManager.getRoom.
    destruct (RoomManager.rooms (roomManager st) !! default "main" roomId)
      as [room|] eqn:Hroom; [|done].
    destruct (getHistoryStore _ _) as [hs m]. cbn.
    apply dom_insert_lookup_L. by eexists.
  - unfold on_draw_line. by destruct (joinedRoom sid st).
  - unfold draw_finish. destruct (joinedRoom sid st); [|done].
    by destruct (getHistoryStore _ _).
  - unfold on_erase. destruct (joinedRoom sid st); [|done].
    by destruct (getHistoryStore _ _).
  - unfold cursor_move. destruct (joinedRoom sid st); [|done].
    by destruct (RoomManager.getUser sid (roomManager st)).
  - unfold undo. destruct (joinedRoom sid st); [|done].
    destruct (getHistoryStore _ _) as [hs m]. by destruct (HistoryStore.undo hs).
  - unfold redo. destruct (joinedRoom sid st); [|done].
    destruct (getHistoryStore _ _) as [hs m]. by destruct (HistoryStore.redo hs).
  - unfold clear_canvas. destruct (joinedRoom sid st); [|done].
    by destruct (getHistoryStore _ _).
  - unfold disconnect. destruct (joinedRoom sid st); [|done]. cbn.
    unfold RoomManager.removeUser, RoomManager.getRoom.
    destruct (RoomManager.userToRoom (roomManager st) !! sid) as [r|]; [|done].
    destruct (truthy r); [|done].
    destruct (RoomManager.rooms (roomManager st) !! r) as [room|] eqn:Hroom;
      [|done].
    cbn. apply dom_insert_lookup_L. by eexists.
Qed.

Lemma run_rooms_dom trace st :
  dom (RoomManager.rooms (roomManager (fst (run trace st))))
    = dom (RoomManager.rooms (roomManager st)).
Proof.
  revert st. induction trace as [|[sid req] trace IH]; intros st; [done|].
  by rewrite run_cons_fst, IH, handle_rooms_dom.
Qed.

(** On the server as it starts the registry has the room 'main' and, as
    no handler calls [createRoom], never another: every other room id has
    no members, whatever the requests were. *)
Lemma started_server_one_room trace roomId :
  roomId ≠ "main" →
  RoomManager.members roomId (roomManager (fst (run trace Server.init))) = [].
Proof.
  intros Hne. unfold RoomManager.members, RoomManager.getRoom.
  pose proof (run_rooms_dom trace Server.init) as Hdom.
  destruct (RoomManager.rooms _ !! roomId) as [room|] eqn:Hroom; [|done].
  apply (elem_of_dom_2 (D := gset string)) in Hroom. rewrite Hdom in Hroom.
  cbn in Hroom. rewrite dom_insert_L, dom_empty_L in Hroom.
  apply elem_of_union in Hroom as [Hin%elem_of_singleton|Hin%elem_of_empty]; done.
Qed.

End TraceFacts.

(** * Further properties *)

(** ** Undo, redo and clear *)

Section TimelineFacts.
Import HistoryStore Ops.
Implicit Types (hs : HistoryStore.t) (op : Server.LogOp).

Lemma undo_timeline hs : timeline (snd (undo hs)) = timeline hs.
Proof.
  unfold undo, timeline.
  destruct (JsArray.pop (history hs)) as [[a rest]|] eqn:Hpop; [|done].
  apply pop_Some in Hpop. rewrite Hpop. unfold JsArray.push. simpl.
  by rewrite reverse_snoc, <- app_assoc.
Qed.

Lemma redo_timeline hs : timeline (snd (redo hs)) = timeline hs.
Proof.
  unfold redo, timeline.
  destruct (JsArray.pop (redoStack hs)) as [[a rest]|] eqn:Hpop; [|done].
  apply pop_Some in Hpop. rewrite Hpop. unfold JsArray.push. simpl.
  by rewrite reverse_snoc, <- app_assoc.
Qed.

Lemma runStore_timeline (ops : list Server.LogOp) hs :
  Forall (λ op, isUndoRedo op = true) ops →
  timeline (runStore ops hs) = timeline hs.
Proof.
  intros Hall. unfold runStore. revert hs.
  induction Hall as [|op ops Hop Hall IH]; intros hs; [done|].
  cbn [foldl]. rewrite IH.
  destruct op; try discriminate Hop; [apply undo_timeline|apply redo_timeline].
Qed.

(** X1. Undo and redo only move the boundary between the entries and the redo
    stack: over any sequence of them the entries followed by the undone
    actions stay the same list, so nothing is made, lost, changed or
    reordered. *)
Theorem undo_redo_keep_timeline (ops : list Server.LogOp) hs :
  Forall (λ op, isUndoRedo op = true) ops →
  timeline (runStore ops hs) = timeline hs ∧
  (length (history (runStore ops hs)) + length (redoStack (runStore ops hs))
   = length (history hs) + length (redoStack hs))%nat.
Proof.
  intros Hall. pose proof (runStore_timeline ops hs Hall) as Ht.
  split; [done|].
  apply (f_equal length) in Ht. unfold timeline in Ht.
  by rewrite !length_app, !length_reverse in Ht.
Qed.

Lemma undo_redo_keep_timeline_witness :
  timeline (runStore [Server.OpUndo; Server.OpUndo; Server.OpRedo] Sample.ordered)
    = timeline Sample.ordered ∧
  (length (history (runStore [Server.OpUndo; Server.OpUndo; Server.OpRedo] Sample.ordered))
   + length (redoStack (runStore [Server.OpUndo; Server.OpUndo; Server.OpRedo] Sample.ordered))
   = length (history Sample.ordered) + length (redoStack Sample.ordered))%nat.
Proof.
  apply (undo_redo_keep_timeline
           [Server.OpUndo; Server.OpUndo; Server.OpRedo] Sample.ordered).
  repeat constructor.
Defined.

(** X2. [redo()] followed at once by [undo()] gives back the store, when there
    was something to redo. *)
Theorem redo_undo_restores hs :
  redoStack hs ≠ [] →
  fst (undo (snd (redo hs))) = history hs ∧
  snd (undo (snd (redo hs))) = hs.
Proof.
  intros (r & a & Heq)%nonempty_push.
  rewrite (redo_nonempty _ _ _ Heq). simpl.
  erewrite undo_nonempty by reflexivity. simpl.
  rewrite <- Heq. by destruct hs.
Qed.

Lemma redo_undo_restores_witness :
  fst (undo (snd (redo (snd (undo Sample.ordered)))))
    = history (snd (undo Sample.ordered)) ∧
  snd (undo (snd (redo (snd (undo Sample.ordered))))) = snd (undo Sample.ordered).
Proof.
  apply (redo_undo_restores (snd (undo Sample.ordered))). vm_compute. discriminate.
Defined.

Lemma undo_iter (h tl r : list DrawingAction) :
  Nat.iter (length tl) (λ s, snd (undo s)) {| history := h ++ tl; redoStack := r |}
  = {| history := h; redoStack := r ++ reverse tl |}.
Proof.
  revert r. induction tl as [|a tl IH] using rev_ind; intros r.
  - simpl. by rewrite !app_nil_r.
  - rewrite length_app, Nat.add_comm. cbn [length Nat.add].
    rewrite Nat.iter_succ_r.
    rewrite (undo_nonempty _ (h ++ tl) a) by (by rewrite app_assoc).
    cbn [snd redoStack]. rewrite IH. unfold JsArray.push.
    by rewrite reverse_snoc, <- app_assoc.
Qed.

Lemma redo_iter (h tl r : list DrawingAction) :
  Nat.iter (length tl) (λ s, snd (redo s))
    {| history := h; redoStack := r ++ reverse tl |}
  = {| history := h ++ tl; redoStack := r |}.
Proof.
  revert h. induction tl as [|a tl IH]; intros h.
  - simpl. by rewrite !app_nil_r.
  - cbn [length]. rewrite Nat.iter_succ_r.
    rewrite (redo_nonempty _ (r ++ reverse tl) a)
      by (simpl; by rewrite reverse_cons, app_assoc).
    cbn [snd history]. unfold JsArray.push.
    rewrite IH. by rewrite <- app_assoc.
Qed.

(** X3. Any number of [undo()]s, up to the number of entries, followed by as
    many [redo()]s gives back the store; after the [undo()]s alone the
    entries are the first ones and the others wait on the redo stack, the
    oldest on top. *)
Theorem undo_n_redo_n (n : nat) hs :
  (n ≤ length (history hs))%nat →
  Nat.iter n (λ s, snd (undo s)) hs
    = {| history := take (length (history hs) - n) (history hs);
         redoStack := redoStack hs
                        ++ reverse (drop (length (history hs) - n) (history hs)) |} ∧
  Nat.iter n (λ s, snd (redo s)) (Nat.iter n (λ s, snd (undo s)) hs) = hs.
Proof.
  intros Hn. destruct hs as [h r]. cbn [history redoStack] in *.
  assert (Hlen : length (drop (length h - n) h) = n)
    by (rewrite length_drop; lia).
  assert (Hundo : Nat.iter n (λ s, snd (undo s)) {| history := h; redoStack := r |}
                  = {| history := take (length h - n) h;
                       redoStack := r ++ reverse (drop (length h - n) h) |}).
  { pose proof (undo_iter (take (length h - n) h) (drop (length h - n) h) r) as H.
    by rewrite Hlen, take_drop in H. }
  split; [done|].
  rewrite Hundo.
  pose proof (redo_iter (take (length h - n) h) (drop (length h - n) h) r) as H.
  by rewrite Hlen, take_drop in H.
Qed.

Lemma undo_n_redo_n_witness :
  Nat.iter 2 (λ s, snd (undo s)) Sample.ordered
    = {| history := take (length (history Sample.ordered) - 2) (history Sample.ordered);
         redoStack := redoStack Sample.ordered
                        ++ reverse (drop (length (history Sample.ordered) - 2)
                                         (history Sample.ordered)) |} ∧
  Nat.iter 2 (λ s, snd (redo s)) (Nat.iter 2 (λ s, snd (undo s)) Sample.ordered)
    = Sample.ordered.
Proof. apply (undo_n_redo_n 2 Sample.ordered). vm_compute. lia. Defined.

(** X4. How each store method changes the number of entries: an append adds
    one, [undo] takes one away unless there is none, [redo] adds one
    unless the redo stack is empty, [clear] leaves none. *)
Theorem entries_length_law op hs :
  length (history (Server.applyLogOp op hs)) =
  match op with
  | Server.OpAddStroke _ _ _ | Server.OpAddErase _ _ _ => S (length (history hs))
  | Server.OpUndo => Nat.pred (length (history hs))
  | Server.OpRedo =>
      match redoStack hs with
      | [] => length (history hs)
      | _ :: _ => S (length (history hs))
      end
  | Server.OpClear => 0%nat
  end.
Proof.
  destruct op; simpl.
  - unfold JsArray.push. rewrite length_app. simpl. lia.
  - unfold JsArray.push. rewrite length_app. simpl. lia.
  - unfold undo. destruct (JsArray.pop (history hs)) as [[a rest]|] eqn:Hpop.
    + apply pop_Some in Hpop. rewrite Hpop. unfold JsArray.push.
      rewrite length_app. simpl. lia.
    + apply pop_None in Hpop. simpl. by rewrite Hpop.
  - unfold redo. destruct (JsArray.pop (redoStack hs)) as [[a rest]|] eqn:Hpop.
    + apply pop_Some in Hpop. rewrite Hpop. unfold JsArray.push. simpl.
      rewrite length_app. simpl. destruct rest; simpl; lia.
    + apply pop_None in Hpop. simpl. by rewrite Hpop.
  - done.
Qed.

(** X5. [clear()] cannot be undone: after it no sequence of [undo()] and
    [redo()] brings an entry back, whatever the store held. *)
Theorem clear_irreversible (ops : list Server.LogOp) hs :
  Forall (λ op, isUndoRedo op = true) ops →
  runStore ops (clear hs) = HistoryStore.new.
Proof.
  intros Hall. pose proof (runStore_timeline ops (clear hs) Hall) as Ht.
  change (timeline (clear hs)) with (@nil DrawingAction) in Ht.
  unfold timeline in Ht. apply app_eq_nil in Ht as [Hh Hr].
  destruct (runStore ops (clear hs)) as [h r]. simpl in *. subst h.
  apply (f_equal reverse) in Hr. rewrite reverse_involutive in Hr. by subst r.
Qed.

Lemma clear_irreversible_witness :
  runStore [Server.OpUndo; Server.OpRedo; Server.OpRedo] (clear Sample.ordered)
    = HistoryStore.new.
Proof.
  apply (clear_irreversible [Server.OpUndo; Server.OpRedo; Server.OpRedo]
           Sample.ordered).
  repeat constructor.
Defined.

End TimelineFacts.

(** ** Queries on the log *)

Section QueryFacts.
Import HistoryStore Ops.
Implicit Types (hs : HistoryStore.t) (op : Server.LogOp).

(** X6. [getCurrentState] returns the strokes of the draw and erase entries,
    each as often as it is in the log, in an order in which the timestamps
    never decrease; when the timestamps already never decrease along the
    log, it returns them in log order. *)
Theorem getCurrentState_sorted_permutation hs :
  getCurrentState hs
    ≡ₚ map action_data (filter (λ a, isStrokeAction a = true) (history hs)) ∧
  StronglySorted (λ s1 s2, strokeKey s1 ≤ strokeKey s2) (getCurrentState hs) ∧
  (StronglySorted (λ s1 s2, strokeKey s1 ≤ strokeKey s2)
     (map action_data (filter (λ a, isStrokeAction a = true) (history hs))) →
   getCurrentState hs
     = map action_data (filter (λ a, isStrokeAction a = true) (history hs))).
Proof.
  unfold getCurrentState. split; [apply sort_perm|].
  split; [apply (sort_sorted strokeKey)|].
  apply (sort_sorted_id strokeKey).
Qed.

Lemma getCurrentState_sorted_permutation_witness :
  getCurrentState Sample.ordered = [Sample.s1; Sample.s3].
Proof.
  destruct (getCurrentState_sorted_permutation Sample.ordered) as (_ & _ & Hid).
  apply Hid. vm_compute.
  repeat (constructor; [|repeat constructor; discriminate]). constructor.
Defined.

(** X7. [getAction] returns the first entry with the id asked for, and
    [undefined] exactly when no entry has it. *)
Theorem getAction_first actionId hs :
  match getAction actionId hs with
  | Some a =>
      action_id a = actionId ∧
      ∃ l1 l2, history hs = l1 ++ a :: l2 ∧
               Forall (λ b, action_id b ≠ actionId) l1
  | None => Forall (λ b, action_id b ≠ actionId) (history hs)
  end.
Proof.
  unfold getAction. induction (history hs) as [|b l IH]; simpl; [done|].
  case_bool_decide as Hb.
  - split; [done|]. by exists [], l.
  - destruct (find _ l) as [a|].
    + destruct IH as (Ha & l1 & l2 & -> & Hall). split; [done|].
      exists (b :: l1), l2. split; [done|]. by constructor.
    + by constructor.
Qed.

Lemma find_snoc_fresh {A} (f : A → bool) (l : list A) (x : A) :
  Forall (λ b, f b = false) l → f x = true → find f (l ++ [x]) = Some x.
Proof.
  intros Hall Hx. induction Hall as [|b l Hb Hall IH]; simpl.
  - by rewrite Hx.
  - by rewrite Hb.
Qed.

Lemma find_snoc_other {A} (f : A → bool) (l : list A) (x : A) :
  f x = false → find f (l ++ [x]) = find f l.
Proof.
  intros Hx. induction l as [|b l IH]; simpl.
  - by rewrite Hx.
  - by destruct (f b).
Qed.

(** X8. An action appended under an id that no entry has is the one
    [getAction] finds for that id, and the ids already there find what
    they found before. *)
Theorem getAction_after_append uuid now stroke hs :
  Forall (λ b, action_id b ≠ uuid) (history hs) →
  getAction uuid (snd (addStroke uuid now stroke hs))
    = Some (fst (addStroke uuid now stroke hs)) ∧
  getAction uuid (snd (addErase uuid now stroke hs))
    = Some (fst (addErase uuid now stroke hs)) ∧
  ∀ actionId, actionId ≠ uuid →
    getAction actionId (snd (addStroke uuid now stroke hs)) = getAction actionId hs ∧
    getAction actionId (snd (addErase uuid now stroke hs)) = getAction actionId hs.
Proof.
  intros Hfresh.
  assert (Hf : Forall (λ b, bool_decide (action_id b = uuid) = false) (history hs)).
  { eapply Forall_impl; [exact Hfresh|]. intros b Hb.
    by apply bool_decide_eq_false_2. }
  unfold getAction, addStroke, addErase, JsArray.push. cbn [fst snd history].
  split; [apply find_snoc_fresh; [done | by apply bool_decide_eq_true_2]|].
  split; [apply find_snoc_fresh; [done | by apply bool_decide_eq_true_2]|].
  intros actionId Hne.
  split; apply find_snoc_other, bool_decide_eq_false_2; simpl; congruence.
Qed.

Lemma getAction_after_append_witness :
  getAction "id-9" (snd (addStroke "id-9" 1002 Sample.s2 Sample.ordered))
    = Some (mkAction "id-9" STROKE_DRAW "bob" 1002 Sample.s2).
Proof.
  destruct (getAction_after_append "id-9" 1002 Sample.s2 Sample.ordered)
    as (H & _).
  - vm_compute. repeat (constructor; [discriminate|]). constructor.
  - exact H.
Defined.

(** X9. [getHistorySince] returns, in log order, the entries stamped strictly
    after the timestamp given; an append shows in it exactly when the
    clock then read later than that timestamp. *)
Theorem getHistorySince_spec timestamp hs :
  (∀ a, a ∈ getHistorySince timestamp hs
        ↔ a ∈ history hs ∧ timestamp < action_timestamp a) ∧
  getHistorySince timestamp hs `sublist_of` history hs ∧
  (∀ uuid now stroke,
     getHistorySince timestamp (snd (addStroke uuid now stroke hs))
       = getHistorySince timestamp hs
           ++ (if decide (timestamp < now)
               then [fst (addStroke uuid now stroke hs)] else []) ∧
     getHistorySince timestamp (snd (addErase uuid now stroke hs))
       = getHistorySince timestamp hs
           ++ (if decide (timestamp < now)
               then [fst (addErase uuid now stroke hs)] else [])).
Proof.
  unfold getHistorySince. split; [|split].
  - intros a. rewrite list_elem_of_filter. tauto.
  - apply sublist_filter.
  - intros uuid now stroke. unfold addStroke, addErase, JsArray.push. simpl.
    rewrite !filter_app. split; by f_equal.
Qed.

(** What every store made by the store's own methods satisfies. *)
Lemma applyLogOp_strokes op hs :
  Forall (λ a, isStrokeAction a = true ∧
               action_userId a = stroke_userId (action_data a)) (timeline hs) →
  Forall (λ a, isStrokeAction a = true ∧
               action_userId a = stroke_userId (action_data a))
         (timeline (Server.applyLogOp op hs)).
Proof.
  intros Hinv. destruct op; simpl.
  - unfold timeline in *. simpl. rewrite reverse_nil, app_nil_r.
    apply Forall_app in Hinv as [Hh _]. unfold JsArray.push.
    apply Forall_app. split; [done|]. by repeat constructor.
  - unfold timeline in *. simpl. rewrite reverse_nil, app_nil_r.
    apply Forall_app in Hinv as [Hh _]. unfold JsArray.push.
    apply Forall_app. split; [done|]. by repeat constructor.
  - by rewrite undo_timeline.
  - by rewrite redo_timeline.
  - constructor.
Qed.

(** X10. In a store made from a new one by any sequence of the store's methods
    every entry and every undone action is a draw or an erase that
    carries the stroke's author: no 'clear_all' action is ever made, and
    [getCurrentState] leaves no entry out. *)
Theorem log_holds_strokes_only (ops : list Server.LogOp) :
  let hs := runStore ops HistoryStore.new in
  Forall (λ a, isStrokeAction a = true ∧
               action_userId a = stroke_userId (action_data a)) (history hs) ∧
  Forall (λ a, isStrokeAction a = true ∧
               action_userId a = stroke_userId (action_data a)) (redoStack hs) ∧
  length (getCurrentState hs) = length (history hs).
Proof.
  intros hs.
  assert (Hinv : Forall (λ a, isStrokeAction a = true ∧
                   action_userId a = stroke_userId (action_data a)) (timeline hs)).
  { subst hs. unfold runStore.
    assert (H0 : Forall (λ a, isStrokeAction a = true ∧
                   action_userId a = stroke_userId (action_data a))
                   (timeline HistoryStore.new)) by constructor.
    revert H0. generalize HistoryStore.new.
    induction ops as [|op ops IH]; intros s Hs; [done|].
    cbn [foldl]. by apply IH, applyLogOp_strokes. }
  unfold timeline in Hinv. apply Forall_app in Hinv as [Hh Hr].
  split; [done|]. split; [by apply Forall_reverse|].
  unfold getCurrentState. rewrite (sort_perm strokeKey), length_map.
  f_equal. clear -Hh. induction Hh as [|a l [Ha _] _ IH]; [done|].
  rewrite filter_cons_True by done. by rewrite IH.
Qed.

End QueryFacts.

(** ** Insertion-ordered maps *)

Section JsMapFacts.
Context {V : Type}.
Implicit Types (m : list (string * V)) (k : string) (v : V).

Lemma keys_set k v m :
  JsMap.keys (JsMap.set k v m)
  = if bool_decide (k ∈ JsMap.keys m) then JsMap.keys m else JsMap.keys m ++ [k].
Proof.
  induction m as [|[k' v'] m IH]; simpl; [done|].
  destruct (decide (k' = k)) as [->|Hne]; simpl.
  - by rewrite bool_decide_eq_true_2 by apply list_elem_of_here.
  - rewrite IH. case_bool_decide as Hin.
    + by rewrite bool_decide_eq_true_2 by (by apply list_elem_of_further).
    + rewrite bool_decide_eq_false_2; [done|].
      intros [?|?]%elem_of_cons; [congruence|done].
Qed.

Lemma keys_delete k m :
  JsMap.keys (JsMap.delete k m) = filter (λ k', k' ≠ k) (JsMap.keys m).
Proof.
  induction m as [|[k' v'] m IH]; simpl; [done|].
  destruct (decide (k' = k)) as [->|Hne]; simpl.
  - by rewrite filter_cons_False by (intros H; by apply H).
  - by rewrite filter_cons_True, IH by done.
Qed.

Lemma delete_set_fresh k v m :
  k ∉ JsMap.keys m → JsMap.delete k (JsMap.set k v m) = m.
Proof.
  induction m as [|[k' v'] m IH]; simpl; intros Hk.
  - by rewrite decide_True.
  - rewrite not_elem_of_cons in Hk. destruct Hk as [Hne Hk].
    rewrite decide_False by done. simpl. rewrite decide_False by done.
    by rewrite IH.
Qed.

Lemma Forall_set (P : string * V → Prop) k v m :
  P (k, v) → Forall P m → Forall P (JsMap.set k v m).
Proof.
  intros Hkv Hall. induction Hall as [|[k' v'] m Hx Hall IH]; simpl.
  - by repeat constructor.
  - destruct (decide (k' = k)); by constructor.
Qed.

Lemma Forall_delete (P : string * V → Prop) k m :
  Forall P m → Forall P (JsMap.delete k m).
Proof.
  intros Hall. induction Hall as [|[k' v'] m Hx Hall IH]; simpl; [done|].
  destruct (decide (k' = k)); [done | by constructor].
Qed.

Lemma NoDup_keys_set k v m :
  NoDup (JsMap.keys m) → NoDup (JsMap.keys (JsMap.set k v m)).
Proof.
  intros Hnd. rewrite keys_set. case_bool_decide as Hin; [done|].
  apply NoDup_app. split; [done|]. split.
  - intros x Hx ->%list_elem_of_singleton. done.
  - apply NoDup_singleton.
Qed.

Lemma NoDup_keys_delete k m :
  NoDup (JsMap.keys m) → NoDup (JsMap.keys (JsMap.delete k m)).
Proof. intros Hnd. rewrite keys_delete. by apply NoDup_filter. Qed.
End JsMapFacts.

(** ** Membership *)

Section MembershipFacts.
Import RoomManager Ops.
Implicit Types (rm : RoomManager.t) (socketId roomId : string).

(** X11. The members of a room are in the order in which they joined: a new
    member goes to the end of the room's list and a member that joins the
    same room again keeps its place; the lists of the other rooms are as
    they were. *)
Theorem addUserToRoom_members socketId roomId rnd rm ref rm' :
  addUserToRoom socketId roomId rnd rm = inr (ref, rm') →
  members roomId rm'
    = (if bool_decide (socketId ∈ members roomId rm) then members roomId rm
       else members roomId rm ++ [socketId]) ∧
  (∀ roomId', roomId' ≠ roomId → members roomId' rm' = members roomId' rm) ∧
  getRoomIdForUser socketId rm' = Some roomId.
Proof.
  unfold addUserToRoom, members, getRoom, getRoomIdForUser.
  destruct (rooms rm !! roomId) as [room|] eqn:Hroom; [|done].
  intros [= <- <-]. cbn. rewrite !lookup_insert_eq. cbn.
  split; [apply keys_set|]. split; [|done].
  intros roomId' Hne. by rewrite lookup_insert_ne.
Qed.

Lemma addUserToRoom_members_witness :
  match addUserToRoom "s2" "main" Sample.rnd0 (Server.roomManager Sample.two_joined) with
  | inr (_, rm') => members "main" rm' = ["s1"; "s2"]
  | inl _ => False
  end.
Proof.
  destruct (addUserToRoom "s2" "main" Sample.rnd0 (Server.roomManager Sample.two_joined))
    as [msg|[ref rm']] eqn:E.
  - vm_compute in E. discriminate.
  - destruct (addUserToRoom_members _ _ _ _ _ _ E) as (H & _).
    rewrite H. reflexivity.
Defined.

(** X12. [removeUser] forgets the user of the socket and touches no other
    socket's user or room id. When the registry has a room id for the
    socket, the socket goes from that room's members, the others keeping
    their order, and from no other room; when it has none, or the empty
    string, rooms and room ids are as they were. *)
Theorem removeUser_leaves socketId rm :
  getUser socketId (removeUser socketId rm) = None ∧
  heap (removeUser socketId rm) = heap rm ∧
  (∀ socketId', socketId' ≠ socketId →
     getUser socketId' (removeUser socketId rm) = getUser socketId' rm ∧
     getRoomIdForUser socketId' (removeUser socketId rm)
       = getRoomIdForUser socketId' rm) ∧
  match userToRoom rm !! socketId with
  | Some roomId =>
      if truthy roomId then
        getRoomIdForUser socketId (removeUser socketId rm) = None ∧
        members roomId (removeUser socketId rm)
          = filter (λ s, s ≠ socketId) (members roomId rm) ∧
        ∀ roomId', roomId' ≠ roomId →
          members roomId' (removeUser socketId rm) = members roomId' rm
      else rooms (removeUser socketId rm) = rooms rm ∧
           userToRoom (removeUser socketId rm) = userToRoom rm
  | None => rooms (removeUser socketId rm) = rooms rm ∧
            userToRoom (removeUser socketId rm) = userToRoom rm
  end.
Proof.
  unfold removeUser, getUser, getRoomIdForUser, members, getRoom.
  destruct (userToRoom rm !! socketId) as [roomId|] eqn:Hroom; cbn.
  - destruct (truthy roomId); cbn.
    + rewrite !lookup_delete_eq. repeat split; try done.
      * intros. by rewrite lookup_delete_ne.
      * intros. by rewrite lookup_delete_ne.
      * destruct (rooms rm !! roomId) as [room|] eqn:Hr; cbn.
        -- rewrite lookup_insert_eq. cbn. apply keys_delete.
        -- by rewrite Hr.
      * intros roomId' Hne.
        destruct (rooms rm !! roomId) as [room|]; cbn; [|done].
        by rewrite lookup_insert_ne.
    + rewrite lookup_delete_eq. repeat split; try done.
      intros. by rewrite lookup_delete_ne.
  - rewrite lookup_delete_eq. repeat split; try done.
    intros. by rewrite lookup_delete_ne.
Qed.

(** X13. Leaving twice is leaving once, and [removeUser] for a socket the
    registry does not know changes nothing. *)
Theorem removeUser_idempotent socketId rm :
  removeUser socketId (removeUser socketId rm) = removeUser socketId rm ∧
  (userToRoom rm !! socketId = None → socketToUser rm !! socketId = None →
   removeUser socketId rm = rm).
Proof.
  split.
  - unfold removeUser.
    destruct (userToRoom rm !! socketId) as [roomId|] eqn:Hroom; cbn.
    + destruct (truthy roomId) eqn:Ht; cbn.
      * rewrite lookup_delete_eq. cbn. by rewrite delete_delete_eq.
      * rewrite Hroom, Ht. cbn. by rewrite delete_delete_eq.
    + rewrite Hroom. cbn. by rewrite delete_delete_eq.
  - intros Hroom Huser. unfold removeUser. rewrite Hroom. cbn.
    rewrite delete_id by done. by destruct rm.
Qed.

Lemma removeUser_idempotent_witness :
  removeUser "s9" (Server.roomManager Sample.two_joined)
    = Server.roomManager Sample.two_joined.
Proof.
  apply (removeUser_idempotent "s9" (Server.roomManager Sample.two_joined));
    reflexivity.
Defined.

(** X14. Joining a room and leaving again gives back the registry's three
    maps, for a socket the registry did not know and a room whose id is
    not the empty string. *)
Theorem join_then_leave socketId roomId rnd rm room :
  getRoom roomId rm = Some room →
  truthy roomId = true →
  socketId ∉ members roomId rm →
  userToRoom rm !! socketId = None →
  socketToUser rm !! socketId = None →
  ∃ ref rm',
    addUserToRoom socketId roomId rnd rm = inr (ref, rm') ∧
    rooms (removeUser socketId rm') = rooms rm ∧
    userToRoom (removeUser socketId rm') = userToRoom rm ∧
    socketToUser (removeUser socketId rm') = socketToUser rm.
Proof.
  intros Hroom Ht Hnin Hu Hs.
  eexists _, _. split; [by apply addUserToRoom_inr|].
  unfold members in Hnin. rewrite Hroom in Hnin.
  unfold removeUser, getRoom. cbn. rewrite lookup_insert_eq, Ht. cbn.
  rewrite lookup_insert_eq. cbn.
  rewrite delete_set_fresh by done.
  rewrite insert_insert_eq, !delete_insert_id by done.
  split; [|done]. apply insert_id. unfold getRoom in Hroom. rewrite Hroom.
  by destruct room.
Qed.

Lemma join_then_leave_witness :
  ∃ ref rm',
    addUserToRoom "s9" "main" Sample.rnd0 (Server.roomManager Sample.two_joined)
      = inr (ref, rm') ∧
    rooms (removeUser "s9" rm') = rooms (Server.roomManager Sample.two_joined) ∧
    userToRoom (removeUser "s9" rm') = userToRoom (Server.roomManager Sample.two_joined) ∧
    socketToUser (removeUser "s9" rm')
      = socketToUser (Server.roomManager Sample.two_joined).
Proof.
  apply (join_then_leave "s9" "main" Sample.rnd0
           (Server.roomManager Sample.two_joined)
           (mkRoom "main" "Main Canvas" [("s1", 0%nat); ("s2", 1%nat)] [] 0));
    try reflexivity.
  vm_compute. intros H. apply list_elem_of_In in H. simpl in H.
  destruct H as [H|[H|[]]]; discriminate H.
Defined.

Lemma roster_of_consistent (heap : list User) (users : list (string * nat)) :
  Forall (λ kv, ∃ user, heap !! kv.2 = Some user ∧ user_id user = kv.1) users →
  map user_id (omap (λ ref, heap !! ref) (JsMap.values users)) = JsMap.keys users.
Proof.
  induction 1 as [|[k ref] users (u & Hu & Hid) _ IH]; [done|].
  unfold JsMap.values, JsMap.keys in *. simpl in Hu, Hid.
  rewrite !map_cons. cbn [omap list_omap snd fst].
  rewrite Hu, map_cons, IH. by rewrite Hid.
Qed.

Lemma applyRegistryOp_consistent op rm :
  consistent rm → consistent (applyRegistryOp op rm).
Proof.
  intros Hc. destruct op as [rid rname|sid rid rnd|sid|sid name]; cbn.
  - intros r room. cbn. destruct (decide (rid = r)) as [->|Hne].
    + rewrite lookup_insert_eq. intros [= <-]. cbn. split; constructor.
    + rewrite lookup_insert_ne by done. apply Hc.
  - unfold addUserToRoom, getRoom.
    destruct (rooms rm !! rid) as [room0|] eqn:Hroom; [|done].
    intros r room. cbn. destruct (decide (rid = r)) as [->|Hne].
    + rewrite lookup_insert_eq. intros [= <-]. cbn.
      destruct (Hc _ _ Hroom) as [Hnd Hall]. split; [by apply NoDup_keys_set|].
      apply Forall_set.
      * eexists. cbn. split; [by rewrite lookup_app_r, Nat.sub_diag|done].
      * eapply Forall_impl; [exact Hall|].
        intros kv (u & Hu & Hid). exists u. split; [|done].
        by apply lookup_app_l_Some.
    + rewrite lookup_insert_ne by done. intros Hr.
      destruct (Hc _ _ Hr) as [Hnd Hall]. split; [done|].
      eapply Forall_impl; [exact Hall|].
      intros kv (u & Hu & Hid). exists u. split; [|done].
      by apply lookup_app_l_Some.
  - unfold removeUser, getRoom.
    destruct (userToRoom rm !! sid) as [rid|]; cbn; [|apply Hc].
    destruct (truthy rid); cbn; [|apply Hc].
    destruct (rooms rm !! rid) as [room0|] eqn:Hroom; cbn; [|apply Hc].
    intros r room. cbn. destruct (decide (rid = r)) as [->|Hne].
    + rewrite lookup_insert_eq. intros [= <-]. cbn.
      destruct (Hc _ _ Hroom) as [Hnd Hall].
      split; [by apply NoDup_keys_delete | by apply Forall_delete].
    + rewrite lookup_insert_ne by done. apply Hc.
  - unfold updateUserName.
    destruct (socketToUser rm !! sid) as [ref|]; [|done].
    intros r room Hr. cbn in Hr. destruct (Hc _ _ Hr) as [Hnd Hall].
    split; [done|]. cbn.
    eapply Forall_impl; [exact Hall|].
    intros kv (u & Hu & Hid). destruct (decide (ref = kv.2)) as [->|Hne].
    + exists (setName name u). by rewrite list_lookup_alter_eq, Hu.
    + exists u. by rewrite list_lookup_alter_ne.
Qed.

(** X15. In a registry made from a new one by any sequence of [createRoom],
    [addUserToRoom], [removeUser] and [updateUserName], the roster of a
    room has one user for each member, in the members' order, each with
    the member's socket id as its id, and no member is listed twice. *)
Theorem roster_lists_members (ops : list RegistryOp) roomId :
  let rm := runRegistry ops RoomManager.new in
  map user_id (getUsersInRoom roomId rm) = members roomId rm ∧
  NoDup (members roomId rm) ∧
  length (getUsersInRoom roomId rm) = length (members roomId rm).
Proof.
  intros rm.
  assert (Hc : consistent rm).
  { subst rm. unfold runRegistry.
    assert (H0 : consistent RoomManager.new).
    { intros r room. unfold RoomManager.new. cbn.
      destruct (decide ("main" = r)) as [<-|Hne].
      - rewrite lookup_insert_eq. intros [= <-]. split; constructor.
      - by rewrite lookup_insert_ne. }
    revert H0. generalize RoomManager.new.
    induction ops as [|op ops IH]; intros rm0 H0; [done|].
    cbn [foldl]. by apply IH, applyRegistryOp_consistent. }
  assert (Hids : map user_id (getUsersInRoom roomId rm) = members roomId rm).
  { unfold getUsersInRoom, members, getRoom.
    destruct (rooms rm !! roomId) as [room|] eqn:Hroom; [|done].
    apply roster_of_consistent. by destruct (Hc _ _ Hroom). }
  split; [done|]. split.
  - unfold members, getRoom.
    destruct (rooms rm !! roomId) as [room|] eqn:Hroom; [|constructor].
    by destruct (Hc _ _ Hroom).
  - by rewrite <- Hids, length_map.
Qed.

End MembershipFacts.

(** ** What the handlers send and store *)

Section HandlerFacts.
Import Server.
Implicit Types (st : Server.t) (sid cur : string) (req : Request).

Lemma io_to_receivers e room ev ad :
  e ∈ io_to room ev ad →
  to e ∈ socketsIn room ad ∧ event e = ev ∧ volatile e = false.
Proof.
  unfold io_to. rewrite list_elem_of_fmap. by intros (s & -> & Hin).
Qed.

Lemma socketsIn_disconnected sid room (ad : gmap string (list string)) :
  socketsIn room ((λ l : list string, filter (λ s, s ≠ sid) l) <$> ad)
  = filter (λ s, s ≠ sid) (socketsIn room ad).
Proof.
  unfold socketsIn. rewrite lookup_fmap. by destruct (ad !! room).
Qed.

(** X16. In-progress strokes and cursor positions are passed on and never kept:
    [draw_line] and [cursor_move] leave the whole state as it is. A
    stroke goes to every socket of the sender's room but the sender; a
    cursor goes, marked volatile and with the colour and name the
    registry has for the sender, to sockets of the room other than the
    sender. *)
Theorem ephemeral_events_not_stored sid (data : Stroke) has_ack (x y : Z) st cur :
  joinedRoom sid st = Some cur →
  fst (on_draw_line sid data has_ack st) = st ∧
  (∀ s, s ∈ socketsIn cur (adapter st) → s ≠ sid →
        {| to := s; volatile := false; event := draw_line data |}
          ∈ snd (on_draw_line sid data has_ack st)) ∧
  (∀ e, e ∈ snd (on_draw_line sid data has_ack st) → event e = draw_line data →
        to e ≠ sid ∧ to e ∈ socketsIn cur (adapter st)) ∧
  fst (cursor_move sid x y st) = st ∧
  (∀ e, e ∈ snd (cursor_move sid x y st) →
        volatile e = true ∧ to e ≠ sid ∧ to e ∈ socketsIn cur (adapter st) ∧
        ∃ user, RoomManager.getUser sid (roomManager st) = Some user ∧
                event e = cursor_update (mkCursor sid x y (user_color user)
                                                  (user_name user))) ∧
  (∀ user s, RoomManager.getUser sid (roomManager st) = Some user →
        s ∈ socketsIn cur (adapter st) → s ≠ sid →
        {| to := s; volatile := true;
           event := cursor_update (mkCursor sid x y (user_color user)
                                            (user_name user)) |}
          ∈ snd (cursor_move sid x y st)).
Proof.
  intros Hj. unfold on_draw_line, cursor_move. rewrite Hj. cbn [fst snd].
  split; [done|]. split.
  { intros s Hs Hne. apply elem_of_app. left. by apply elem_of_broadcast_to. }
  split.
  { intros e [He|He]%elem_of_app Hev.
    - by apply broadcast_to_receivers in He as (? & ? & _).
    - apply ack_receiver in He as [_ He]. congruence. }
  destruct (RoomManager.getUser sid (roomManager st)) as [user|]; cbn [fst snd].
  - split; [done|]. split.
    + intros e He. unfold broadcast_to in He.
      apply list_elem_of_fmap in He as (s & -> & Hin).
      apply list_elem_of_filter in Hin as [Hne Hin]. cbn.
      repeat split; try done. by exists user.
    + intros user' s [= <-] Hs Hne. by apply elem_of_broadcast_to.
  - split; [done|]. split; [by intros e ?%elem_of_nil | done].
Qed.

Lemma ephemeral_events_not_stored_witness :
  fst (on_draw_line "s1" Sample.s1 false Sample.two_joined) = Sample.two_joined ∧
  fst (cursor_move "s1" 3 4 Sample.two_joined) = Sample.two_joined.
Proof.
  destruct (ephemeral_events_not_stored "s1" Sample.s1 false 3 4
              Sample.two_joined "main") as (H1 & _ & _ & H2 & _).
  - reflexivity.
  - split; [exact H1 | exact H2].
Defined.

Lemma getHistoryStore_snapshot room r (m : gmap string HistoryStore.t) :
  snapshot r (snd (getHistoryStore room m)) = snapshot r m.
Proof.
  unfold getHistoryStore. destruct (m !! room) as [hs|] eqn:Hm; [done|].
  cbn [snd]. rewrite !snapshot_lookup.
  destruct (decide (room = r)) as [->|Hne].
  - by rewrite lookup_insert_eq, Hm.
  - by rewrite lookup_insert_ne.
Qed.

(** X17. Only the five structural requests change a log: after [join_room],
    [draw_line], [cursor_move] or [disconnect] every room's entries are
    what they were. *)
Theorem only_structural_requests_write_logs sid req st (r : string) :
  structural req = false →
  snapshot r (roomHistories (fst (handle sid req st)))
    = snapshot r (roomHistories st).
Proof.
  intros Hs. destruct req; try discriminate Hs; cbn [handle].
  - unfold join_room. destruct (leavePrevious sid st) as [ad1 out1].
    destruct (RoomManager.addUserToRoom _ _ _ _) as [msg|[ref rm]]; [done|].
    pose proof (getHistoryStore_snapshot (default "main" roomId) r
                  (roomHistories st)) as Hsnap.
    by destruct (getHistoryStore _ _) as [hs m].
  - unfold on_draw_line. by destruct (joinedRoom sid st).
  - unfold cursor_move. destruct (joinedRoom sid st); [|done].
    by destruct (RoomManager.getUser sid (roomManager st)).
  - unfold disconnect. by destruct (joinedRoom sid st).
Qed.

Lemma only_structural_requests_write_logs_witness :
  snapshot "main"
    (roomHistories (fst (handle "s3" (JoinRoom (Some "main") true Sample.rnd0)
                                Sample.two_joined)))
  = snapshot "main" (roomHistories Sample.two_joined).
Proof.
  apply (only_structural_requests_write_logs "s3"
           (JoinRoom (Some "main") true Sample.rnd0) Sample.two_joined "main").
  reflexivity.
Defined.

(** X18. No handler but [join_room] sends anything out of the sender's room: a
    connection that is not joined makes the server send nothing, and what
    a joined connection makes it send goes to the sender or to a socket
    of the sender's room. *)
Theorem emissions_stay_in_room sid req st e :
  (∀ roomId has_cb rnd, req ≠ JoinRoom roomId has_cb rnd) →
  e ∈ snd (handle sid req st) →
  ∃ cur, joinedRoom sid st = Some cur ∧
         (to e = sid ∨ to e ∈ socketsIn cur (adapter st)).
Proof.
  intros Hreq He.
  destruct req; cbn [handle] in He;
    [by edestruct Hreq | ..];
    unfold on_draw_line, draw_finish, on_erase, cursor_move, undo, redo,
      clear_canvas, disconnect in He;
    destruct (joinedRoom sid st) as [cur|]; cbn [snd] in He;
    try (by apply elem_of_nil in He); exists cur; (split; [done|]).
  - apply elem_of_app in He as [He|He].
    + right. by apply broadcast_to_receivers in He as (? & _).
    + left. by apply ack_receiver in He as [? _].
  - destruct (getHistoryStore _ _) as [hs m]. cbn [snd] in He.
    left. by apply ack_receiver in He as [? _].
  - destruct (getHistoryStore _ _) as [hs m]. cbn [snd] in He.
    apply elem_of_app in He as [He|He].
    + right. by apply broadcast_to_receivers in He as (? & _).
    + left. by apply ack_receiver in He as [? _].
  - destruct (RoomManager.getUser sid (roomManager st)); cbn [snd] in He;
      [|by apply elem_of_nil in He].
    right. by apply broadcast_to_receivers in He as (? & _).
  - destruct (getHistoryStore _ _) as [hs m].
    destruct (HistoryStore.undo hs) as [h hs']. cbn [snd] in He.
    apply elem_of_app in He as [He|He].
    + right. by apply io_to_receivers in He as (? & _).
    + left. by apply ack_receiver in He as [? _].
  - destruct (getHistoryStore _ _) as [hs m].
    destruct (HistoryStore.redo hs) as [h hs']. cbn [snd] in He.
    apply elem_of_app in He as [He|He].
    + right. by apply io_to_receivers in He as (? & _).
    + left. by apply ack_receiver in He as [? _].
  - destruct (getHistoryStore _ _) as [hs m]. cbn [snd] in He.
    rewrite !elem_of_app in He. destruct He as [He|[He|He]].
    + right. by apply io_to_receivers in He as (? & _).
    + right. by apply io_to_receivers in He as (? & _).
    + left. by apply ack_receiver in He as [? _].
  - right. apply io_to_receivers in He as (He & _).
    rewrite socketsIn_disconnected in He.
    by apply list_elem_of_filter in He as [_ ?].
Qed.

Lemma emissions_stay_in_room_witness :
  ∃ cur, joinedRoom "s1" Sample.two_joined = Some cur ∧
         ("s2" = "s1" ∨ "s2" ∈ socketsIn cur (adapter Sample.two_joined)).
Proof.
  apply (emissions_stay_in_room "s1" (Undo true) Sample.two_joined
           {| to := "s2"; volatile := false;
              event := history_sync [] |}).
  - discriminate.
  - vm_compute. apply list_elem_of_In. right. left. reflexivity.
Defined.

End HandlerFacts.

(** ** Global undo, clear and disconnect *)

Section GlobalFacts.
Import Server.
Implicit Types (st : Server.t) (sid cur : string) (req : Request).

Lemma joinedRoom_structural sid sid' req st :
  structural req = true →
  joinedRoom sid' (fst (handle sid req st)) = joinedRoom sid' st.
Proof.
  intros Hs. unfold joinedRoom. rewrite handle_currentRoomId; [done|].
  intros ? ? ? ->. discriminate Hs.
Qed.

(** X19. Undo is global: with two connections joined to one room, an [undo]
    from the one right after a [draw_finish] from the other takes the
    stroke off again. The room's entries are what they were before the
    stroke, every socket of the room is sent them as a [history_sync], the
    acknowledgement carries them too, and a [redo] from any connection of
    the room puts the stroke back. *)
Theorem undo_is_global sid1 sid2 sid3 (data : Stroke) has_ack uuid now st cur :
  joinedRoom sid1 st = Some cur →
  joinedRoom sid2 st = Some cur →
  joinedRoom sid3 st = Some cur →
  let st1 := fst (draw_finish sid1 data has_ack uuid now st) in
  let st2 := fst (undo sid2 has_ack st1) in
  let st3 := fst (redo sid3 has_ack st2) in
  snapshot cur (roomHistories st2) = snapshot cur (roomHistories st) ∧
  snd (undo sid2 has_ack st1)
    = io_to cur (history_sync (snapshot cur (roomHistories st))) (adapter st)
        ++ ack has_ack sid2 (callback_history (snapshot cur (roomHistories st))) ∧
  snapshot cur (roomHistories st3)
    = snapshot cur (roomHistories st)
        ++ [mkAction uuid STROKE_DRAW (stroke_userId data) now data].
Proof.
  intros Hj1 Hj2 Hj3 st1 st2 st3.
  assert (Hj2' : joinedRoom sid2 st1 = Some cur).
  { pose proof (joinedRoom_structural sid1 sid2
                  (DrawFinish data has_ack uuid now) st eq_refl) as H.
    cbn [handle] in H. subst st1. by rewrite H. }
  assert (Hj3' : joinedRoom sid3 st2 = Some cur).
  { pose proof (joinedRoom_structural sid1 sid3
                  (DrawFinish data has_ack uuid now) st eq_refl) as H.
    pose proof (joinedRoom_structural sid2 sid3 (Undo has_ack) st1 eq_refl) as H'.
    cbn [handle] in H, H'. subst st2 st1. by rewrite H', H. }
  pose proof (handle_log sid1 (DrawFinish data has_ack uuid now) st cur _ Hj1 eq_refl)
    as H1. cbn [handle] in H1. fold st1 in H1.
  pose proof (handle_log sid2 (Undo has_ack) st1 cur _ Hj2' eq_refl) as H2.
  cbn [handle] in H2. fold st2 in H2.
  pose proof (handle_log sid3 (Redo has_ack) st2 cur _ Hj3' eq_refl) as H3.
  cbn [handle] in H3. fold st3 in H3.
  assert (Hs1 : roomHistories st1 !! cur
                = Some (snd (HistoryStore.addStroke uuid now data
                          (default HistoryStore.new (roomHistories st !! cur))))).
  { rewrite H1. by rewrite onStore_lookup. }
  assert (Hs2 : roomHistories st2 !! cur
                = Some {| HistoryStore.history :=
                            HistoryStore.history
                              (default HistoryStore.new (roomHistories st !! cur));
                          HistoryStore.redoStack :=
                            [mkAction uuid STROKE_DRAW (stroke_userId data) now data] |}).
  { rewrite H2, onStore_lookup, Hs1. cbn [default applyLogOp].
    erewrite undo_nonempty by reflexivity. done. }
  split; [by rewrite !snapshot_lookup, Hs2|].
  split.
  - unfold undo. rewrite Hj2'. unfold getHistoryStore. rewrite Hs1.
    erewrite undo_nonempty by reflexivity. cbn [fst snd].
    rewrite snapshot_lookup.
    assert (Had : adapter st1 = adapter st).
    { subst st1. unfold draw_finish. rewrite Hj1.
      by destruct (getHistoryStore _ _). }
    by rewrite Had.
  - rewrite snapshot_lookup, H3, onStore_lookup, Hs2. cbn [default applyLogOp].
    erewrite (redo_nonempty _ []) by reflexivity.
    by rewrite snapshot_lookup.
Qed.

Lemma undo_is_global_witness :
  snapshot "main"
    (roomHistories
       (fst (undo "s2" true
               (fst (draw_finish "s1" Sample.s1 true "id-1" 1000 Sample.two_joined)))))
  = snapshot "main" (roomHistories Sample.two_joined).
Proof.
  pose proof (undo_is_global "s1" "s2" "s1" Sample.s1 true "id-1" 1000
                Sample.two_joined "main" eq_refl eq_refl eq_refl) as (H & _).
  exact H.
Defined.

(** X20. [clear_canvas] from a joined connection leaves the room's store with
    no entry and nothing to redo, whatever it held, and every other room's
    store as it was; each socket of the room is sent [canvas_cleared] and
    then an empty [history_sync]. *)
Theorem clear_canvas_resets_room sid has_ack st cur :
  joinedRoom sid st = Some cur →
  roomHistories (fst (clear_canvas sid has_ack st)) !! cur = Some HistoryStore.new ∧
  (∀ r, r ≠ cur →
        roomHistories (fst (clear_canvas sid has_ack st)) !! r
          = roomHistories st !! r) ∧
  snd (clear_canvas sid has_ack st)
    = io_to cur canvas_cleared (adapter st)
        ++ io_to cur (history_sync []) (adapter st)
        ++ ack has_ack sid callback_ok ∧
  snapshot cur (roomHistories (fst (undo sid has_ack (fst (clear_canvas sid has_ack st)))))
    = [] ∧
  snapshot cur (roomHistories (fst (redo sid has_ack (fst (clear_canvas sid has_ack st)))))
    = [].
Proof.
  intros Hj.
  pose proof (handle_log sid (ClearCanvas has_ack) st cur _ Hj eq_refl) as Hc.
  cbn [handle] in Hc.
  assert (Hj' : joinedRoom sid (fst (clear_canvas sid has_ack st)) = Some cur).
  { pose proof (joinedRoom_structural sid sid (ClearCanvas has_ack) st eq_refl) as H.
    cbn [handle] in H. by rewrite H. }
  pose proof (handle_log sid (Undo has_ack) _ cur _ Hj' eq_refl) as Hu.
  pose proof (handle_log sid (Redo has_ack) _ cur _ Hj' eq_refl) as Hr.
  cbn [handle] in Hu, Hr.
  split; [by rewrite Hc, onStore_lookup|].
  split; [intros r Hne; by rewrite Hc, onStore_lookup_ne|].
  split.
  { unfold clear_canvas. rewrite Hj. by destruct (getHistoryStore _ _). }
  split.
  - by rewrite Hu, snapshot_onStore, Hc, onStore_lookup.
  - by rewrite Hr, snapshot_onStore, Hc, onStore_lookup.
Qed.

Lemma clear_canvas_resets_room_witness :
  roomHistories (fst (clear_canvas "s1" true Sample.two_joined)) !! "main"
    = Some HistoryStore.new.
Proof.
  destruct (clear_canvas_resets_room "s1" true Sample.two_joined "main")
    as (H & _); [reflexivity | exact H].
Defined.

(** X21. After [disconnect] the socket is in no socket.io room and is sent
    nothing, and no log has changed. If the connection was joined, the
    registry has no user for it any more and the roster sent to the room is
    the one after the removal; if it was not, the registry is untouched. *)
Theorem disconnect_cleans_up sid st :
  (∀ room, sid ∉ socketsIn room (adapter (fst (disconnect sid st)))) ∧
  (∀ e, e ∈ snd (disconnect sid st) → to e ≠ sid) ∧
  roomHistories (fst (disconnect sid st)) = roomHistories st ∧
  match joinedRoom sid st with
  | Some cur =>
      roomManager (fst (disconnect sid st))
        = RoomManager.removeUser sid (roomManager st) ∧
      RoomManager.getUser sid (roomManager (fst (disconnect sid st))) = None ∧
      ∀ s, s ∈ socketsIn cur (adapter st) → s ≠ sid →
           {| to := s; volatile := false;
              event := users_update
                         (RoomManager.getUsersInRoom cur
                            (RoomManager.removeUser sid (roomManager st))) |}
             ∈ snd (disconnect sid st)
  | None => roomManager (fst (disconnect sid st)) = roomManager st ∧
            snd (disconnect sid st) = []
  end.
Proof.
  unfold disconnect.
  assert (Hgone : ∀ room,
            sid ∉ socketsIn room
                    ((λ l : list string, filter (λ s, s ≠ sid) l) <$> adapter st)).
  { intros room. rewrite socketsIn_disconnected.
    intros [Hne _]%list_elem_of_filter. done. }
  destruct (joinedRoom sid st) as [cur|]; cbn [fst snd adapter roomManager roomHistories].
  - split; [done|]. split.
    { intros e (He & _)%io_to_receivers Hto. rewrite Hto in He. by eapply Hgone. }
    split; [done|]. split; [done|]. split.
    { unfold RoomManager.getUser, RoomManager.removeUser. cbn.
      by rewrite lookup_delete_eq. }
    intros s Hs Hne. apply elem_of_io_to. rewrite socketsIn_disconnected.
    by apply list_elem_of_filter.
  - split; [done|]. split; [by intros e ?%elem_of_nil|]. done.
Qed.

(** X22. A join that fails detaches a joined connection from its room without
    the connection leaving it: the socket is out of the socket.io room and
    so out of reach of the room's broadcasts, while the connection is still
    joined to the room, still in its roster, and its structural requests
    still go to the room's log. *)
Theorem failed_join_detaches sid roomId has_cb rnd st cur :
  joinedRoom sid st = Some cur →
  RoomManager.getRoom roomId (roomManager st) = None →
  let st' := fst (join_room sid (Some roomId) has_cb rnd st) in
  (sid ∉ socketsIn cur (adapter st')) ∧
  joinedRoom sid st' = Some cur ∧
  roomManager st' = roomManager st ∧
  (∀ ev, ∀ e, e ∈ io_to cur ev (adapter st') → to e ≠ sid) ∧
  (∀ data has_ack uuid now,
     snapshot cur (roomHistories (fst (draw_finish sid data has_ack uuid now st')))
       = snapshot cur (roomHistories st)
           ++ [mkAction uuid STROKE_DRAW (stroke_userId data) now data]).
Proof.
  intros Hj Hroom st'.
  assert (Hst' : st' = {| roomManager := roomManager st;
                          roomHistories := roomHistories st;
                          adapter := fst (leavePrevious sid st);
                          currentRoomId := currentRoomId st |}).
  { subst st'. unfold join_room. cbn [default].
    destruct (leavePrevious sid st) as [ad1 out1].
    by rewrite (addUserToRoom_inl _ _ _ _ Hroom). }
  assert (Hgone : sid ∉ socketsIn cur (adapter st')).
  { rewrite Hst'. cbn [adapter]. unfold leavePrevious. rewrite Hj.
    assert (Hl : sid ∉ socketsIn cur (socket_leave sid cur (adapter st))).
    { unfold socket_leave, socketsIn.
      destruct (adapter st !! cur) as [l|] eqn:Hl.
      - rewrite lookup_insert_eq. cbn.
        intros [Hne _]%list_elem_of_filter. done.
      - rewrite Hl. cbn. apply not_elem_of_nil. }
    destruct (RoomManager.getRoomIdForUser sid (roomManager st)) as [prev|];
      [destruct (truthy prev)|]; done. }
  assert (Hj' : joinedRoom sid st' = Some cur) by (by rewrite Hst').
  split; [done|]. split; [done|]. split; [by rewrite Hst'|]. split.
  - intros ev e (He & _)%io_to_receivers Hto. by rewrite Hto in He.
  - intros data has_ack uuid now.
    pose proof (handle_log sid (DrawFinish data has_ack uuid now) st' cur _ Hj' eq_refl)
      as Hlog. cbn [handle] in Hlog.
    rewrite Hlog, snapshot_onStore, snapshot_lookup. by rewrite Hst'.
Qed.

Lemma failed_join_detaches_witness :
  ("s1" ∉ socketsIn "main"
            (adapter (fst (join_room "s1" (Some "room2") true Sample.rnd0
                                     Sample.two_joined)))) ∧
  joinedRoom "s1" (fst (join_room "s1" (Some "room2") true Sample.rnd0
                                  Sample.two_joined)) = Some "main".
Proof.
  destruct (failed_join_detaches "s1" "room2" true Sample.rnd0
              Sample.two_joined "main") as (H1 & H2 & _); try reflexivity.
  split; [exact H1 | exact H2].
Defined.

End GlobalFacts.

(** ** The server as it starts *)

Section StartedFacts.
Import Server Ops.
Implicit Types (st : Server.t) (sid cur : string) (req : Request).

Lemma onlyMain_joined st sid cur :
  onlyMain st → joinedRoom sid st = Some cur → cur = "main".
Proof.
  intros (_ & Hcur & _) Hj. unfold joinedRoom in Hj.
  destruct (currentRoomId st !! sid) as [r|] eqn:Hr; [|done].
  destruct (truthy r); [|done]. injection Hj as <-. by eapply Hcur.
Qed.

Lemma socketsIn_leave_empty sid cur r (ad : gmap string (list string)) :
  socketsIn r ad = [] → socketsIn r (socket_leave sid cur ad) = [].
Proof.
  unfold socket_leave, socketsIn. intros Hr.
  destruct (ad !! cur) as [l|] eqn:Hl; [|done].
  destruct (decide (cur = r)) as [->|Hne].
  - rewrite lookup_insert_eq. rewrite Hl in Hr. cbn in *. by subst l.
  - by rewrite lookup_insert_ne.
Qed.

Lemma socketsIn_join_other sid room r (ad : gmap string (list string)) :
  r ≠ room → socketsIn r (socket_join sid room ad) = socketsIn r ad.
Proof.
  intros Hne. unfold socket_join. case_bool_decide; [done|].
  unfold socketsIn at 1 3. by rewrite lookup_insert_ne.
Qed.

Lemma onStore_dom_main op (m : gmap string HistoryStore.t) :
  dom m = ({["main"]} : gset string) →
  dom (onStore "main" op m) = ({["main"]} : gset string).
Proof.
  intros Hd. unfold onStore, getHistoryStore.
  destruct (m !! "main"); cbn; rewrite !dom_insert_L, Hd; set_solver.
Qed.

Lemma handle_onlyMain sid req st :
  onlyMain st → onlyMain (fst (handle sid req st)).
Proof.
  intros Hinv. pose proof Hinv as (Hrooms & Hcur & Hhist & Had).
  split; [by rewrite handle_rooms_dom|].
  destruct (decide (structural req = true)) as [Hs|Hs].
  { (* a structural request *)
    assert (Hc : currentRoomId (fst (handle sid req st)) = currentRoomId st).
    { apply handle_currentRoomId. intros ? ? ? ->. discriminate Hs. }
    destruct (joinedRoom sid st) as [cur|] eqn:Hj.
    - pose proof (onlyMain_joined _ _ _ Hinv Hj) as ->.
      destruct (logOpOf req) as [op|] eqn:Hop; [|by destruct req].
      pose proof (handle_log sid req st "main" op Hj Hop) as Hlog.
      split; [by rewrite Hc|]. split; [by rewrite Hlog; apply onStore_dom_main|].
      assert (Ha : adapter (fst (handle sid req st)) = adapter st).
      { destruct req; try discriminate Hs; cbn [handle];
          unfold draw_finish, on_erase, undo, redo, clear_canvas; rewrite Hj;
          destruct (getHistoryStore _ _) as [hs m]; try done.
        - by destruct (HistoryStore.undo hs).
        - by destruct (HistoryStore.redo hs). }
      by rewrite Ha.
    - by rewrite handle_unjoined_state. }
  destruct req; try (by destruct Hs); cbn [handle].
  - (* join_room *)
    unfold join_room.
    assert (Had1 : ∀ r, r ≠ "main" → socketsIn r (fst (leavePrevious sid st)) = []).
    { intros r Hr. unfold leavePrevious.
      destruct (joinedRoom sid st) as [cur|]; [|by apply Had].
      assert (socketsIn r (socket_leave sid cur (adapter st)) = [])
        by (by apply socketsIn_leave_empty, Had).
      destruct (RoomManager.getRoomIdForUser sid (roomManager st)) as [prev|];
        [destruct (truthy prev)|]; done. }
    destruct (leavePrevious sid st) as [ad1 out1]. cbn [fst] in Had1.
    unfold RoomManager.addUserToRoom, RoomManager.getRoom.
    destruct (RoomManager.rooms (roomManager st) !! default "main" roomId)
      as [room|] eqn:Hroom; [|done].
    assert (Hmain : default "main" roomId = "main").
    { apply (elem_of_dom_2 (D := gset string)) in Hroom.
      rewrite Hrooms in Hroom. by apply elem_of_singleton in Hroom. }
    rewrite Hmain in *.
    pose proof (f_equal (λ p, dom (snd p))
                  (eq_refl (getHistoryStore "main" (roomHistories st)))) as Hd.
    destruct (getHistoryStore "main" (roomHistories st)) as [hs m] eqn:Hgs.
    cbn. split; [|split].
    + intros sid' r. destruct (decide (sid = sid')) as [->|Hne].
      * rewrite lookup_insert_eq. by intros [= <-].
      * rewrite lookup_insert_ne by done. apply Hcur.
    + unfold getHistoryStore in Hgs.
      destruct (roomHistories st !! "main"); injection Hgs as <- <-; [done|].
      rewrite dom_insert_L, Hhist. set_solver.
    + intros r Hr. rewrite socketsIn_join_other by done. by apply Had1.
  - (* draw_line *)
    unfold on_draw_line. by destruct (joinedRoom sid st).
  - (* cursor_move *)
    unfold cursor_move. destruct (joinedRoom sid st); [|done].
    by destruct (RoomManager.getUser sid (roomManager st)).
  - (* disconnect *)
    unfold disconnect.
    assert (Had' : ∀ r, r ≠ "main" →
              socketsIn r ((λ l : list string, filter (λ s, s ≠ sid) l) <$> adapter st)
              = []).
    { intros r Hr. by rewrite socketsIn_disconnected, Had. }
    by destruct (joinedRoom sid st).
Qed.

(** X23. On the server as it starts a connection is only ever joined to
    'main', whatever is asked of it: no other room has a member, a socket
    or a log, since no handler creates a room. *)
Theorem started_server_only_main (trace : list (string * Request)) :
  let st := fst (run trace Server.init) in
  (∀ sid cur, joinedRoom sid st = Some cur → cur = "main") ∧
  (∀ r, r ≠ "main" →
        RoomManager.getRoom r (roomManager st) = None ∧
        RoomManager.members r (roomManager st) = [] ∧
        socketsIn r (adapter st) = [] ∧
        roomHistories st !! r = None).
Proof.
  intros st.
  assert (Hinv : onlyMain st).
  { subst st.
    assert (H0 : onlyMain Server.init).
    { split; [|split; [|split]].
      - unfold Server.init, RoomManager.new, RoomManager.createRoom.
        cbn [roomManager RoomManager.rooms snd].
        by rewrite dom_insert_L, dom_empty_L, union_empty_r_L.
      - intros sid r H. unfold Server.init in H. cbn [currentRoomId] in H.
        by rewrite lookup_empty in H.
      - unfold Server.init. cbn [roomHistories]. by rewrite dom_singleton_L.
      - intros r _. unfold socketsIn, Server.init. cbn [adapter].
        by rewrite lookup_empty. }
    revert H0. generalize Server.init.
    induction trace as [|[sid req] trace IH]; intros st0 H0; [done|].
    rewrite run_cons_fst. by apply IH, handle_onlyMain. }
  split; [intros sid cur; by apply onlyMain_joined|].
  intros r Hr. destruct Hinv as (Hrooms & _ & Hhist & Had).
  assert (Hnone : RoomManager.rooms (roomManager st) !! r = None).
  { apply (not_elem_of_dom (D := gset string)). rewrite Hrooms.
    by intros ?%elem_of_singleton. }
  split; [done|]. split.
  { unfold RoomManager.members, RoomManager.getRoom. by rewrite Hnone. }
  split; [by apply Had|].
  apply (not_elem_of_dom (D := gset string)). rewrite Hhist.
  by intros ?%elem_of_singleton.
Qed.

End StartedFacts.

(** ** The client *)

Section ClientFacts.
Import Main.
Implicit Types (app : Main.t) (s : Stroke) (ps : list (Point * Z)).

Lemma drawStrokes_fold (l : list Stroke) (c : Client.Canvas) :
  foldl (λ c stroke, Client.drawStroke stroke false c) c l
  = c ++ map (λ s, (s, false))
             (filter (λ s, ¬ (length (stroke_points s) < 1)%nat) l).
Proof.
  revert c. induction l as [|s l IH]; intros c; simpl.
  - by rewrite app_nil_r.
  - rewrite IH. unfold Client.drawStroke. destruct (decide _) as [Hlt|Hge].
    + by rewrite filter_cons_False by (intros Hn; by apply Hn).
    + rewrite filter_cons_True by done. by rewrite <- app_assoc.
Qed.

(** X24. [CanvasManager.redrawAll] starts from a cleared canvas and paints
    every stroke that has a point exactly once, in an order in which the
    timestamps never decrease, and all of them as ink: it has no way to
    paint a stroke as an eraser. *)
Theorem canvas_redrawAll_paints_ink (strokes : list Stroke) (c : Client.Canvas) :
  CanvasManager.redrawAll strokes c
    = map (λ s, (s, false))
          (filter (λ s, ¬ (length (stroke_points s) < 1)%nat)
                  (JsArray.sort CanvasManager.strokeKey strokes)) ∧
  CanvasManager.redrawAll strokes c
    ≡ₚ map (λ s, (s, false))
           (filter (λ s, ¬ (length (stroke_points s) < 1)%nat) strokes) ∧
  Forall (λ p, p.2 = false) (CanvasManager.redrawAll strokes c) ∧
  StronglySorted (λ p q, CanvasManager.strokeKey p.1 ≤ CanvasManager.strokeKey q.1)
                 (CanvasManager.redrawAll strokes c).
Proof.
  assert (Heq : CanvasManager.redrawAll strokes c
    = map (λ s, (s, false))
          (filter (λ s, ¬ (length (stroke_points s) < 1)%nat)
                  (JsArray.sort CanvasManager.strokeKey strokes))).
  { unfold CanvasManager.redrawAll, Client.canvas_clear.
    by rewrite drawStrokes_fold. }
  split; [done|]. rewrite Heq. clear Heq. split; [by rewrite sort_perm|]. split.
  - apply Forall_fmap, Forall_forall. by intros ? _.
  - pose proof (sort_sorted CanvasManager.strokeKey strokes) as Hs.
    induction Hs as [|s l Hs IH Hall]; [constructor|].
    destruct (decide (¬ (length (stroke_points s) < 1)%nat)).
    + rewrite filter_cons_True by done. cbn [map]. constructor; [done|].
      apply Forall_fmap, Forall_forall.
      intros s' [_ Hin]%list_elem_of_filter.
      rewrite Forall_forall in Hall. by apply Hall.
    + by rewrite filter_cons_False.
Qed.

(** X25. A [history_sync] makes the canvas the replay of the history received,
    whatever was on it: each draw or erase action whose stroke has a point
    is painted once, an erase as an eraser and a draw as ink. The drawing
    in progress, if there is one, goes on; a second identical sync changes
    nothing. *)
Theorem history_sync_redraws (h : list DrawingAction) app :
  canvas (onHistorySync h app) = Client.redrawAll h [] ∧
  canvas (onHistorySync h app)
    ≡ₚ map (λ a, (action_data a, bool_decide (action_type a = STROKE_ERASE)))
           (filter (λ a, ¬ (length (stroke_points (action_data a)) < 1)%nat)
                   (filter (λ a, HistoryStore.isStrokeAction a = true) h)) ∧
  history (onHistorySync h app) = h ∧
  isDrawing (onHistorySync h app) = isDrawing app ∧
  currentStroke (onHistorySync h app) = currentStroke app ∧
  onHistorySync h (onHistorySync h app) = onHistorySync h app.
Proof.
  unfold onHistorySync. cbn.
  rewrite !redrawAll_paints. repeat split; try done.
  unfold Client.sortedActions. by rewrite sort_perm.
Qed.

Lemma moves_spec ps app s :
  isDrawing app = true → currentStroke app = Some s →
  isDrawing (fst (moves ps app)) = true ∧
  currentStroke (fst (moves ps app))
    = Some (foldl (λ s p, pushPoint p.1 s) s ps) ∧
  myTool (fst (moves ps app)) = myTool app ∧
  history (fst (moves ps app)) = history app ∧
  myColor (fst (moves ps app)) = myColor app ∧
  myWidth (fst (moves ps app)) = myWidth app ∧
  Forall (λ o, match o with
               | emitCursorMove _ _ => True
               | emitDraw s' => myTool app = brush ∧ stroke_id s' = stroke_id s ∧
                                stroke_isFinished s' = stroke_isFinished s
               | emitErase s' => myTool app = eraser ∧ stroke_id s' = stroke_id s ∧
                                 stroke_isFinished s' = stroke_isFinished s
               | _ => False
               end) (snd (moves ps app)) ∧
  length (filter (λ o, isCursorMove o = true) (snd (moves ps app)))
    = length ps.
Proof.
  revert app s. induction ps as [|[p now] ps IH]; intros app s Hd Hs.
  { cbn. by repeat split. }
  cbn [moves]. unfold continueDrawing. rewrite Hd, Hs.
  destruct p as [x y]. cbn [px py].
  set (app1 := Main.mk _ _ _ _ _ _ _ _ _ _ _).
  set (out1 := _ :: _).
  destruct (IH app1 (pushPoint (mkPoint x y) s) eq_refl eq_refl)
    as (H1 & H2 & H3 & H4 & H5 & H6 & H7 & H8).
  destruct (moves ps app1) as [app2 out2]. cbn [fst snd] in *.
  split; [done|]. split; [done|]. split; [done|]. split; [done|].
  split; [done|]. split; [done|]. split.
  - apply Forall_app. split; [|done].
    subst out1. constructor; [done|].
    destruct (bool_decide _); [|constructor].
    constructor; [|constructor].
    by destruct (myTool app).
  - rewrite filter_app, length_app, H8. subst out1.
    rewrite filter_cons_True by done.
    destruct (bool_decide _); [destruct (isEraser (myTool app))|];
      cbn; try done;
      rewrite filter_cons_False by done; done.
Qed.

(** X26. A whole gesture on a connected client, press, moves and release,
    ends with one final message, [draw_finish] with the brush and [erase]
    with the eraser, that carries the finished stroke: the id and the
    timestamp taken at the press, the client's socket id, colour and
    width, and every point of the gesture in order. Before it come a
    cursor position for each move and in-progress copies of the same
    stroke only; afterwards the client is idle again. *)
Theorem gesture_sends_finished_stroke (x y : Z) uuid now ps app :
  connected app = true →
  let final := {| stroke_id := uuid; stroke_userId := socketId app;
                  stroke_color := myColor app; stroke_width := myWidth app;
                  stroke_points := mkPoint x y :: map fst ps;
                  stroke_isFinished := true; stroke_timestamp := Some now |} in
  ∃ body,
    snd (gesture x y uuid now ps app)
      = body ++ [if isEraser (myTool app) then emitErase final else emitFinish final] ∧
    Forall (λ o, match o with
                 | emitCursorMove _ _ => True
                 | emitDraw s' => myTool app = brush ∧ stroke_id s' = uuid ∧
                                  stroke_isFinished s' = false
                 | emitErase s' => myTool app = eraser ∧ stroke_id s' = uuid ∧
                                   stroke_isFinished s' = false
                 | _ => False
                 end) body ∧
    length (filter (λ o, isCursorMove o = true) body) = length ps ∧
    isDrawing (fst (gesture x y uuid now ps app)) = false ∧
    currentStroke (fst (gesture x y uuid now ps app)) = None ∧
    history (fst (gesture x y uuid now ps app)) = history app.
Proof.
  intros Hc final. unfold gesture, startDrawing. rewrite Hc. cbn [negb].
  set (s0 := mkStroke uuid _ _ _ _ _ _).
  set (app0 := Main.mk _ _ _ _ _ _ _ _ _ _ _).
  destruct (moves_spec ps app0 s0 eq_refl eq_refl)
    as (H1 & H2 & H3 & H4 & H5 & H6 & H7 & H8).
  destruct (moves ps app0) as [app1 out1]. cbn [fst snd] in *.
  unfold finishDrawing. rewrite H1, H2. cbn [fst snd].
  exists out1. rewrite H3. cbn [myTool app0].
  assert (Hfinal : finished (foldl (λ s p, pushPoint p.1 s) s0 ps) = final).
  { assert (Hgen : ∀ s, finished (foldl (λ s p, pushPoint p.1 s) s ps)
              = {| stroke_id := stroke_id s; stroke_userId := stroke_userId s;
                   stroke_color := stroke_color s; stroke_width := stroke_width s;
                   stroke_points := stroke_points s ++ map fst ps;
                   stroke_isFinished := true;
                   stroke_timestamp := stroke_timestamp s |}).
    { clear. induction ps as [|p ps IH]; intros s.
      - cbn. by rewrite app_nil_r.
      - cbn [foldl]. rewrite IH. cbn. unfold JsArray.push.
        by rewrite <- app_assoc. }
    by rewrite Hgen. }
  rewrite Hfinal. split; [done|]. split; [exact H7|]. split; [done|].
  by repeat split.
Qed.

Lemma gesture_sends_finished_stroke_witness :
  ∃ body,
    snd (gesture 1 2 "g-1" 5000 [(mkPoint 3 4, 5030); (mkPoint 5 6, 5040)]
                 (Main.init true "s1"))
    = body ++ [emitFinish (mkStroke "g-1" "s1" "#000000" 5
                             [mkPoint 1 2; mkPoint 3 4; mkPoint 5 6]
                             true (Some 5000))].
Proof.
  destruct (gesture_sends_finished_stroke 1 2 "g-1" 5000
              [(mkPoint 3 4, 5030); (mkPoint 5 6, 5040)] (Main.init true "s1"))
    as (body & H & _).
  - reflexivity.
  - exists body. exact H.
Defined.

End ClientFacts.

(** ** One room for each connection *)

Section OneRoomFacts.
Import Server Ops.
Implicit Types (st : Server.t) (sid : string) (req : Request).





(** A connection joined to 'main' that asks for 'room2' stays a member of
    'main' and of nothing else. *)
Example rejoin_on_started_server :
  let st := fst (run [("s1", JoinRoom (Some "main") true Sample.rnd0);
                      ("s1", JoinRoom (Some "room2") true Sample.rndCycle)]
                     Server.init) in
  RoomManager.members "main" (roomManager st) = ["s1"] ∧
  RoomManager.members "room2" (roomManager st) = [] ∧
  joinedRoom "s1" st = Some "main".
Proof. repeat split; reflexivity. Qed.

End OneRoomFacts.
